(** * The page service of the application builder

    A shallow embedding of [server/src/services/page.service.ts]: the
    pages of an application version, their components, layout rows and
    event handlers, with the operations that list, clone, update,
    reorder and delete pages.

    The service is written against a relational store through an
    object-relational mapper.  The store is modelled as a record of
    tables, every table a list of rows in the store's own order, and the
    service's asynchronous methods as computations of a state and
    exception monad over that record. *)

From Stdlib Require Import List String Ascii ZArith Lia Bool Arith.
From Stdlib Require Import Decimal DecimalString DecimalNat.
From Stdlib Require Import Permutation.
Import ListNotations.

Local Open Scope string_scope.
Local Open Scope list_scope.

(** ** Strings as the source uses them *)

(** [s.includes(pattern)]: [pattern] occurs in [s] as a substring. *)
Fixpoint includes (s pattern : string) : bool :=
  if String.prefix pattern s then true
  else match s with
       | EmptyString => false
       | String _ rest => includes rest pattern
       end.

(** A number interpolated in a template literal, [`${n}`], for a
    length: its decimal digits. *)
Definition decimal (n : nat) : string :=
  NilEmpty.string_of_uint (Nat.to_uint n).

(** [array.map((x, index) => f(x, index))]. *)
Fixpoint mapi_from {A B : Type} (f : A -> nat -> B) (start : nat) (l : list A) : list B :=
  match l with
  | [] => []
  | x :: rest => f x start :: mapi_from f (S start) rest
  end.

Definition mapi {A B : Type} (f : A -> nat -> B) (l : list A) : list B :=
  mapi_from f 0 l.

(** ** Values of a request payload

    The change-set of an update request is a JSON object; the service
    reads its keys and, on the reorder path, the [index] property of
    its values. *)
Module Js.

#[local] Unset Elimination Schemes.

Inductive value :=
| undefined
| null
| number (n : Z)
| str (s : string)
| object (props : list (string * value)).

#[local] Set Elimination Schemes.

(** An object as the list of its own properties, in key order. *)
Definition obj := list (string * value).

(** [Object.keys(o)]. *)
Definition keys (o : obj) : list string := map fst o.

(** [o[key]] on an object. *)
Fixpoint get (o : obj) (key : string) : value :=
  match o with
  | [] => undefined
  | (k, v) :: rest => if String.eqb k key then v else get rest key
  end.

(** [v.key] on any value: [None] is the [TypeError] of reading a
    property of [undefined] or [null]; a number or a string has no
    such own property. *)
Definition prop (v : value) (key : string) : option value :=
  match v with
  | undefined | null => None
  | number _ | str _ => Some undefined
  | object props => Some (get props key)
  end.

Definition asNumber (v : value) : option Z :=
  match v with number n => Some n | _ => None end.

Definition asString (v : value) : option string :=
  match v with str s => Some s | _ => None end.

(** The property names an object literal inherits from
    [Object.prototype]: [o[key]] is defined under these names also when
    [o] has no such own property. *)
Definition inherited : list string :=
  ["constructor"; "__proto__"; "hasOwnProperty"; "isPrototypeOf";
   "propertyIsEnumerable"; "toLocaleString"; "toString"; "valueOf";
   "__defineGetter__"; "__defineSetter__"; "__lookupGetter__"; "__lookupSetter__"].

End Js.

(** ** Entities

    Modelled from the spec: the entity declarations ([Page],
    [Component], [Layout], [EventHandler] and the application version)
    are not part of the service file; their fields are those of the data
    model the service reads and writes. *)

Module Page.

Record t := mk {
  id : string;
  name : string;
  handle : string;
  index : Z;
  appVersionId : string
}.

(** [{ ...page, index: i }]. *)
Definition withIndex (i : Z) (p : t) : t :=
  mk (id p) (name p) (handle p) i (appVersionId p).

(** The columns an update writes: [None] is a property that is absent
    (or [undefined]) in the object handed to [update]. *)
Record partial := mkPartial {
  p_id : option string;
  p_name : option string;
  p_handle : option string;
  p_index : option Z;
  p_appVersionId : option string
}.

(** A whole page object handed to [update]: every column is written. *)
Definition whole (p : t) : partial :=
  mkPartial (Some (id p)) (Some (name p)) (Some (handle p))
            (Some (index p)) (Some (appVersionId p)).

(** The object [{ id, index }] of the reorder path, and the columns it
    writes. *)
Record idAndIndex := mkIdAndIndex {
  i_id : string;
  i_index : Js.value
}.

Definition ofIdAndIndex (o : idAndIndex) : partial :=
  mkPartial (Some (i_id o)) None None (Js.asNumber (i_index o)) None.

(** A change-set read as columns of the page table. *)
Definition ofObject (o : Js.obj) : partial :=
  mkPartial (Js.asString (Js.get o "id"))
            (Js.asString (Js.get o "name"))
            (Js.asString (Js.get o "handle"))
            (Js.asNumber (Js.get o "index"))
            (Js.asString (Js.get o "appVersionId")).

Definition orElse {A : Type} (o : option A) (d : A) : A :=
  match o with Some a => a | None => d end.

(** The row after the columns of [v] are written. *)
Definition assign (v : partial) (p : t) : t :=
  mk (orElse (p_id v) (id p))
     (orElse (p_name v) (name p))
     (orElse (p_handle v) (handle p))
     (orElse (p_index v) (index p))
     (orElse (p_appVersionId v) (appVersionId p)).

End Page.

Module Component.

Record t := mk {
  id : string;
  pageId : string;
  parent : option string;
  config : string
}.

Definition withId (i : string) (c : t) : t :=
  mk i (pageId c) (parent c) (config c).

Definition withPageId (p : string) (c : t) : t :=
  mk (id c) p (parent c) (config c).

Definition withParent (p : option string) (c : t) : t :=
  mk (id c) (pageId c) p (config c).

End Component.

Module Layout.

Record t := mk {
  id : string;
  componentId : string;
  geometry : string
}.

Definition withId (i : string) (l : t) : t :=
  mk i (componentId l) (geometry l).

Definition withComponentId (c : string) (l : t) : t :=
  mk (id l) c (geometry l).

End Layout.

Module EventDefinition.

(** The [event] payload of a handler: the triggering event, the action
    it runs and, for the action ["control-component"], the component
    it controls ([None] when the property is [undefined]). *)
Record t := mk {
  eventId : string;
  actionId : string;
  componentId : option string
}.

Definition withComponentId (c : option string) (d : t) : t :=
  mk (eventId d) (actionId d) c.

End EventDefinition.

Module EventHandler.

Record t := mk {
  id : string;
  sourceId : string;
  event : option EventDefinition.t;
  appVersionId : string
}.

Definition withId (i : string) (e : t) : t :=
  mk i (sourceId e) (event e) (appVersionId e).

Definition withSourceId (s : string) (e : t) : t :=
  mk (id e) s (event e) (appVersionId e).

Definition withEvent (d : option EventDefinition.t) (e : t) : t :=
  mk (id e) (sourceId e) d (appVersionId e).

End EventHandler.

Module AppVersion.

Record t := mk {
  id : string;
  homePageId : option string
}.

End AppVersion.

(** ** The store *)

Record Store := mkStore {
  pages : list Page.t;
  components : list Component.t;
  layouts : list Layout.t;
  eventHandlers : list EventHandler.t;
  appVersions : list AppVersion.t
}.

Definition withPages (ps : list Page.t) (st : Store) : Store :=
  mkStore ps (components st) (layouts st) (eventHandlers st) (appVersions st).

Definition withComponents (cs : list Component.t) (st : Store) : Store :=
  mkStore (pages st) cs (layouts st) (eventHandlers st) (appVersions st).

Definition withLayouts (ls : list Layout.t) (st : Store) : Store :=
  mkStore (pages st) (components st) ls (eventHandlers st) (appVersions st).

Definition withEventHandlers (es : list EventHandler.t) (st : Store) : Store :=
  mkStore (pages st) (components st) (layouts st) es (appVersions st).

(** ** Computations on the store

    An asynchronous method either returns a value or throws; both leave
    a store behind.  The errors of the service are plain [Error]s told
    apart by their message. *)

Inductive Exception :=
| Error (message : string)
| TypeError.

Inductive Completion (A : Type) :=
| Returned (a : A)
| Thrown (e : Exception).

Arguments Returned {A} a.
Arguments Thrown {A} e.

Definition M (A : Type) : Type := Store -> Completion A * Store.

Definition ret {A : Type} (a : A) : M A := fun st => (Returned a, st).

Definition throw {A : Type} (e : Exception) : M A := fun st => (Thrown e, st).

Definition bind {A B : Type} (m : M A) (k : A -> M B) : M B :=
  fun st =>
    match m st with
    | (Returned a, st') => k a st'
    | (Thrown e, st') => (Thrown e, st')
    end.

Declare Scope service_scope.
Delimit Scope service_scope with service.

Notation "x <- m ;; k" := (bind m (fun x => k))
  (at level 100, m at next level, right associativity) : service_scope.
Notation "m ;; k" := (bind m (fun _ => k))
  (at level 100, right associativity) : service_scope.

Local Open Scope service_scope.

(** [await Promise.all(l.map(async (x) => f(x)))] and the [for ... of]
    loop with an [await] in its body: the calls in the order of the
    array. *)
Fixpoint mapM {A B : Type} (f : A -> M B) (l : list A) : M (list B) :=
  match l with
  | [] => ret []
  | x :: rest =>
      y <- f x ;;
      ys <- mapM f rest ;;
      ret (y :: ys)
  end.

(** The kinds of failure the specification names, for the messages the
    service throws. *)
Inductive ErrorKind := NotFound | InvariantViolation | Other.

Definition kind (e : Exception) : ErrorKind :=
  match e with
  | Error message =>
      if String.eqb message "Page not found" then NotFound
      else if String.eqb message "Cannot delete home page" then InvariantViolation
      else if String.eqb message "Page not deleted" then InvariantViolation
      else Other
  | TypeError => Other
  end.

(** ** The store's interface

    What the service needs of the object-relational mapper.  The
    repository of the service and the entity manager of a transaction
    address the same tables.  [find] keeps the store's own order. *)

Record UpdateResult := mkUpdateResult { updated : nat }.

Record DeleteResult := mkDeleteResult { affected : nat }.

Definition hasId (pageId : string) (p : Page.t) : bool :=
  String.eqb (Page.id p) pageId.

(** [find(Page, { appVersionId })]. *)
Definition findPages (appVersionId : string) : M (list Page.t) :=
  fun st =>
    (Returned (filter (fun p => String.eqb (Page.appVersionId p) appVersionId) (pages st)), st).

(** [findOne(Page, id)]. *)
Definition findOnePage (pageId : string) : M (option Page.t) :=
  fun st => (Returned (find (hasId pageId) (pages st)), st).

(** [update(Page, id, values)]: the columns of [values] are written to
    the row of that id. *)
Definition updatePageRow (pageId : string) (values : Page.partial) : M UpdateResult :=
  fun st =>
    (Returned (mkUpdateResult (List.length (filter (hasId pageId) (pages st)))),
     withPages (map (fun p => if hasId pageId p then Page.assign values p else p) (pages st)) st).

(** [delete(Page, id)]: the rows of the page table with that id.  What
    the constraints of the schema delete along with a page is not part
    of the service and is not modelled; the properties of a delete speak
    of the page table. *)
Definition deletePageRow (pageId : string) : M DeleteResult :=
  fun st =>
    (Returned (mkDeleteResult (List.length (filter (hasId pageId) (pages st)))),
     withPages (filter (fun p => negb (hasId pageId p)) (pages st)) st).

(** ** Collaborators

    Modelled from the spec: the application-version service, the
    event-handler service and the transaction helpers are not part of
    the service file. *)

(** Modelled from the spec: [findAppFromVersion(versionId)] answers
    [{ editingVersion: { homePageId } }], the version the page belongs
    to. *)
Record App := mkApp { editingVersion : option AppVersion.t }.

Definition findAppFromVersion (appVersionId : string) : M App :=
  fun st =>
    (Returned (mkApp (find (fun v => String.eqb (AppVersion.id v) appVersionId) (appVersions st))), st).

(** Modelled from the spec: [findAllEventsWithSourceId(sourceId)], the
    event handlers owned by that page or component. *)
Definition findAllEventsWithSourceId (sourceId : string) : M (list EventHandler.t) :=
  fun st =>
    (Returned (filter (fun e => String.eqb (EventHandler.sourceId e) sourceId) (eventHandlers st)), st).

(** Modelled from the spec: [findEventsForVersion(versionId)]. *)
Definition findEventsForVersion (appVersionId : string) : M (list EventHandler.t) :=
  fun st =>
    (Returned (filter (fun e => String.eqb (EventHandler.appVersionId e) appVersionId) (eventHandlers st)), st).

(** Modelled from the spec: [cascadeDeleteEvents(sourceId)] deletes the
    event handlers of that source.  The service does not await it; here
    it takes effect where it is called. *)
Definition cascadeDeleteEvents (sourceId : string) : M unit :=
  fun st =>
    (Returned tt,
     withEventHandlers
       (filter (fun e => negb (String.eqb (EventHandler.sourceId e) sourceId)) (eventHandlers st)) st).

(** Modelled from the spec: [getAllComponents(pageId)], the components
    of a page. *)
Definition getAllComponents (pageId : string) : M (list Component.t) :=
  fun st =>
    (Returned (filter (fun c => String.eqb (Component.pageId c) pageId) (components st)), st).

(** Modelled from the spec: the transaction helpers run a unit of work
    atomically; the version-scoped one also stamps the version after the
    commit.  Time stamps are not part of this model, and no unit of work
    of the service throws after a write of its entity manager, so that
    there is never anything to roll back: both helpers run their unit of
    work as it is. *)
Definition dbTransactionWrap {A : Type} (operation : M A) : M A := operation.

Definition dbTransactionForAppVersionAssociationsUpdate {A : Type}
  (operation : M A) (appVersionId : string) : M A := operation.

(** ** Create *)

Module CreatePageDto.

Record t := mk {
  id : string;
  name : string;
  handle : string;
  index : Z
}.

End CreatePageDto.

(** [save(Page, entity)] of an entity that carries its id: the row of
    that id is written when there is one, and the entity is inserted
    otherwise. *)
Definition savePageEntity (entity : Page.t) : M Page.t :=
  fun st =>
    if existsb (hasId (Page.id entity)) (pages st)
    then (Returned entity,
          withPages (map (fun p => if hasId (Page.id entity) p then entity else p) (pages st)) st)
    else (Returned entity, withPages (pages st ++ [entity]) st).

Definition createPage (page : CreatePageDto.t) (appVersionId : string) : M Page.t :=
  dbTransactionForAppVersionAssociationsUpdate
    (let newPage :=
       Page.mk (CreatePageDto.id page) (CreatePageDto.name page) (CreatePageDto.handle page)
               (CreatePageDto.index page) appVersionId in
     savePageEntity newPage)
    appVersionId.

(** ** Update and reorder *)

Record UpdatePageDto := mkUpdatePageDto {
  pageId : string;
  diff : Js.obj
}.

(** [{ id: pageId, index: pages[pageId].index }] for one key of the
    change map. *)
Definition pageToPage (pages : Js.obj) (pageId : string) : M Page.idAndIndex :=
  match Js.prop (Js.get pages pageId) "index" with
  | None => throw TypeError
  | Some index => ret (Page.mkIdAndIndex pageId index)
  end.

Definition updatePagesOrder (pages : Js.obj) (appVersionId : string) : M unit :=
  pagesToPage <- mapM (pageToPage pages) (Js.keys pages) ;;
  dbTransactionForAppVersionAssociationsUpdate
    (mapM (fun page => updatePageRow (Page.i_id page) (Page.ofIdAndIndex page) ;; ret tt)
          pagesToPage ;;
     ret tt)
    appVersionId.

(** The service answers the store's update result on the plain path and
    nothing on the reorder path. *)
Definition updatePage (pageUpdates : UpdatePageDto) (appVersionId : string)
  : M (option UpdateResult) :=
  if (1 <? List.length (Js.keys (diff pageUpdates)))%nat then
    (updatePagesOrder (diff pageUpdates) appVersionId ;; ret None)
  else
    currentPage <- findOnePage (pageId pageUpdates) ;;
    match currentPage with
    | None => throw (Error "Page not found")
    | Some _ =>
        result <- updatePageRow (pageId pageUpdates) (Page.ofObject (diff pageUpdates)) ;;
        ret (Some result)
    end.

(** ** Delete *)

Definition rearrangePagesOnDelete (pages : list Page.t) (pageDeletedIndex : Z) : list Page.t :=
  mapi (fun page index =>
          if (Z.of_nat index + 1 >=? pageDeletedIndex)%Z
          then Page.withIndex (Page.index page - 1)%Z page
          else page)
       pages.

(** [editingVersion?.homePageId === pageId]. *)
Definition isHomePage (editingVersion : option AppVersion.t) (pageId : string) : bool :=
  match editingVersion with
  | Some v =>
      match AppVersion.homePageId v with
      | Some home => String.eqb home pageId
      | None => false
      end
  | None => false
  end.

Definition deletePage (pageId : string) (appVersionId : string) : M (list unit) :=
  app <- findAppFromVersion appVersionId ;;
  dbTransactionForAppVersionAssociationsUpdate
    (pageExists <- findOnePage pageId ;;
     match pageExists with
     | None => throw (Error "Page not found")
     | Some pageExists =>
         if isHomePage (editingVersion app) pageId then
           throw (Error "Cannot delete home page")
         else
           cascadeDeleteEvents (Page.id pageExists) ;;
           let pageDeletedIndex := Page.index pageExists in
           pageDeleted <- deletePageRow pageId ;;
           if (affected pageDeleted =? 0)%nat then
             throw (Error "Page not deleted")
           else
             pages <- findPages (Page.appVersionId pageExists) ;;
             let rearrangedPages := rearrangePagesOnDelete pages pageDeletedIndex in
             mapM (fun page => updatePageRow (Page.id page) (Page.whole page) ;; ret tt)
                  rearrangedPages
     end)
    appVersionId.

(** ** New identities

    A row saved without an id gets its id from the store.  All the
    service relies on is that such an id is new, no row carries it and
    no row refers to it, and that it is a non-empty string. *)

Definition optional (o : option string) : list string :=
  match o with
  | Some s => [s]
  | None => []
  end.

Definition controlled (e : EventHandler.t) : list string :=
  match EventHandler.event e with
  | Some d => optional (EventDefinition.componentId d)
  | None => []
  end.

(** The identifiers the store holds: the primary keys of its rows and
    the columns and payloads that refer to rows. *)
Definition identifiers (st : Store) : list string :=
  map Page.id (pages st)
  ++ map Component.id (components st)
  ++ map Component.pageId (components st)
  ++ flat_map (fun c => optional (Component.parent c)) (components st)
  ++ map Layout.id (layouts st)
  ++ map Layout.componentId (layouts st)
  ++ map EventHandler.id (eventHandlers st)
  ++ map EventHandler.sourceId (eventHandlers st)
  ++ flat_map controlled (eventHandlers st).

Class IdGenerator := {
  generate : list string -> string;
  generate_new : forall known, ~ In (generate known) known;
  generate_nonempty : forall known, generate known <> ""
}.

(** A generator to run the service with: a mark followed by as many
    digits as the longest identifier in use has characters, which is
    longer than every identifier in use. *)
Fixpoint longest (known : list string) : nat :=
  match known with
  | [] => 0
  | s :: rest => Nat.max (String.length s) (longest rest)
  end.

Fixpoint zeros (n : nat) : string :=
  match n with
  | 0 => ""
  | S m => String "0" (zeros m)
  end.

Definition longerThanAll (known : list string) : string :=
  String "#" (zeros (longest known)).

(** ** The id-remap table of a clone

    [componentsIdMap] is an object used as a map from the id of a
    component to the id of its clone.  Ids are generated strings, so
    that no key meets a property every object inherits: the table is
    modelled by its own properties.  A property that rests on a key
    being absent from the table assumes that the keys of the clone are
    no such names ([plainKeys]). *)
Module IdMap.

Definition t := list (string * string).

Definition empty : t := [].

(** [m[key] = value]. *)
Definition set (m : t) (key value : string) : t := (key, value) :: m.

(** [m[key]], [None] for [undefined]. *)
Fixpoint get (m : t) (key : string) : option string :=
  match m with
  | [] => None
  | (k, v) :: rest => if String.eqb k key then Some v else get rest key
  end.

(** A value used as a property key: [undefined] and [null] are read as
    their names. *)
Definition key (o : option string) (absent : string) : string :=
  match o with
  | Some s => s
  | None => absent
  end.

(** [if (value)]: a string that is defined and not empty. *)
Definition truthy (o : option string) : option string :=
  match o with
  | Some s => if String.eqb s "" then None else Some s
  | None => None
  end.

End IdMap.

(** ** Clone *)

(** The rewrite both event loops apply to a handler before it is
    copied:
    [if (eventDefinition?.actionId === 'control-component')
       eventDefinition.componentId = componentsIdMap[eventDefinition.componentId]]. *)
Definition remapEvent (componentsIdMap : IdMap.t) (event : EventHandler.t) : EventHandler.t :=
  match EventHandler.event event with
  | Some eventDefinition =>
      if String.eqb (EventDefinition.actionId eventDefinition) "control-component" then
        EventHandler.withEvent
          (Some (EventDefinition.withComponentId
                   (IdMap.get componentsIdMap
                      (IdMap.key (EventDefinition.componentId eventDefinition) "undefined"))
                   eventDefinition))
          event
      else event
  | None => event
  end.

(** A page of the listing the service answers: the page without its
    [appVersionId], with its components. *)
Record PageListing := mkPageListing {
  l_id : string;
  l_name : string;
  l_handle : string;
  l_index : Z;
  l_components : list Component.t
}.

Record Cloned := mkCloned {
  c_pages : list PageListing;
  c_events : list EventHandler.t
}.

Definition findPagesForVersion (appVersionId : string) : M (list PageListing) :=
  allPages <- findPages appVersionId ;;
  mapM (fun page =>
          components <- getAllComponents (Page.id page) ;;
          ret (mkPageListing (Page.id page) (Page.name page) (Page.handle page)
                             (Page.index page) components))
       allPages.

Section Clone.

Context {ids : IdGenerator}.

(** [save] of an entity whose id is [undefined] inserts a row; the
    entity is given as the row it becomes once the store has chosen its
    id. *)
Definition savePage (entity : string -> Page.t) : M Page.t :=
  fun st =>
    let row := entity (generate (identifiers st)) in
    (Returned row, withPages (pages st ++ [row]) st).

Definition saveComponent (entity : string -> Component.t) : M Component.t :=
  fun st =>
    let row := entity (generate (identifiers st)) in
    (Returned row, withComponents (components st ++ [row]) st).

Definition saveLayout (entity : string -> Layout.t) : M Layout.t :=
  fun st =>
    let row := entity (generate (identifiers st)) in
    (Returned row, withLayouts (layouts st ++ [row]) st).

Definition saveEventHandler (entity : string -> EventHandler.t) : M EventHandler.t :=
  fun st =>
    let row := entity (generate (identifiers st)) in
    (Returned row, withEventHandlers (eventHandlers st ++ [row]) st).

(** [find(Component, { pageId })] and [find(Layout, { componentId })]. *)
Definition findComponents (pageId : string) : M (list Component.t) :=
  fun st =>
    (Returned (filter (fun c => String.eqb (Component.pageId c) pageId) (components st)), st).

Definition findLayouts (componentId : string) : M (list Layout.t) :=
  fun st =>
    (Returned (filter (fun l => String.eqb (Layout.componentId l) componentId) (layouts st)), st).

(** [update(Component, id, { parent })]. *)
Definition updateComponentParent (componentId parent : string) : M UpdateResult :=
  fun st =>
    (Returned (mkUpdateResult
                 (List.length (filter (fun c => String.eqb (Component.id c) componentId)
                                      (components st)))),
     withComponents
       (map (fun c => if String.eqb (Component.id c) componentId
                      then Component.withParent (Some parent) c else c)
            (components st)) st).

(** The callbacks of [Promise.all(pageComponents.map(async ...))] do
    not run one after the other.  Every callback runs up to its first
    [await], the insert of its component, before any of them resumes;
    the queries of a transaction go over one connection and are answered
    in the order they were issued.  So the components are inserted in
    the order of the array and each callback records its pair in
    [componentsIdMap] when its insert is answered, which is before the
    query for the layouts of the first component is: the table is
    complete when the first callback goes on to clone layouts and
    events.  [insertClones] is that first stage; it answers every
    component with its clone. *)
Fixpoint insertClones (clonePageId : string) (pageComponents : list Component.t)
  (componentsIdMap : IdMap.t) : M (list (Component.t * Component.t) * IdMap.t) :=
  match pageComponents with
  | [] => ret ([], componentsIdMap)
  | component :: rest =>
      newComponent <-
        saveComponent (fun id => Component.withId id (Component.withPageId clonePageId component)) ;;
      let componentsIdMap :=
        IdMap.set componentsIdMap (Component.id component) (Component.id newComponent) in
      answer <- insertClones clonePageId rest componentsIdMap ;;
      ret ((component, newComponent) :: fst answer, snd answer)
  end.

(** The rest of a callback, from the query for the layouts of the
    component on.  The callbacks are taken in the order of the array,
    which is one of the orders they may go on in: the rows of different
    components may reach a table in another order.  The properties of
    the copied layouts and event handlers are therefore stated for the
    rows of one component and up to the order of the rows. *)
Definition cloneLayoutsAndEvents (componentsIdMap : IdMap.t)
  (pair : Component.t * Component.t) : M Component.t :=
  let component := fst pair in
  let newComponent := snd pair in
  componentLayouts <- findLayouts (Component.id component) ;;
  let clonedLayouts :=
    map (fun layout id =>
           Layout.withId id (Layout.withComponentId (Component.id newComponent) layout))
        componentLayouts in
  clonedComponentEvents <- findAllEventsWithSourceId (Component.id component) ;;
  let clonedEvents :=
    map (fun event id =>
           EventHandler.withId id
             (EventHandler.withSourceId (Component.id newComponent)
                (remapEvent componentsIdMap event)))
        clonedComponentEvents in
  mapM saveLayout clonedLayouts ;;
  mapM saveEventHandler clonedEvents ;;
  ret newComponent.

(** The last loop: the parent of a clone is looked up in the table. *)
Definition remapParent (componentsIdMap : IdMap.t) (component : Component.t) : M unit :=
  match IdMap.truthy (IdMap.get componentsIdMap (IdMap.key (Component.parent component) "null")) with
  | Some componentId => updateComponentParent (Component.id component) componentId ;; ret tt
  | None => ret tt
  end.

Definition clonePageEventsAndComponents (pageId clonePageId : string) : M unit :=
  dbTransactionWrap
    (pageComponents <- findComponents pageId ;;
     pageEvents <- findAllEventsWithSourceId pageId ;;
     let componentsIdMap := IdMap.empty in
     mapM (fun event =>
             saveEventHandler
               (fun id => EventHandler.withId id
                            (EventHandler.withSourceId clonePageId
                               (remapEvent componentsIdMap event))))
          pageEvents ;;
     inserted <- insertClones clonePageId pageComponents componentsIdMap ;;
     let componentsIdMap := snd inserted in
     clonedComponents <- mapM (cloneLayoutsAndEvents componentsIdMap) (fst inserted) ;;
     mapM (remapParent componentsIdMap) clonedComponents ;;
     ret tt).

(** The pages of the version whose name or handle contains the name or
    handle the copy would get. *)
Definition pageNameORHandleExists (allPages : list Page.t) (pageName pageHandle : string)
  : list Page.t :=
  filter (fun page => includes (Page.name page) pageName || includes (Page.handle page) pageHandle)
         allPages.

Definition clonePage (pageId : string) (appVersionId : string) : M Cloned :=
  dbTransactionForAppVersionAssociationsUpdate
    (pageToClone <- findOnePage pageId ;;
     match pageToClone with
     | None => throw (Error "Page not found")
     | Some pageToClone =>
         let pageName := (Page.name pageToClone ++ " (copy)")%string in
         let pageHandle := (Page.handle pageToClone ++ "-copy")%string in
         allPages <- findPages appVersionId ;;
         let collisions := List.length (pageNameORHandleExists allPages pageName pageHandle) in
         let pageName :=
           if (0 <? collisions)%nat
           then (Page.name pageToClone ++ " (copy " ++ decimal collisions ++ ")")%string
           else pageName in
         let pageHandle :=
           if (0 <? collisions)%nat
           then (Page.handle pageToClone ++ "-copy-" ++ decimal collisions)%string
           else pageHandle in
         clonedpage <-
           savePage (fun id => Page.mk id pageName pageHandle
                                       (Page.index pageToClone + 1)%Z appVersionId) ;;
         clonePageEventsAndComponents pageId (Page.id clonedpage) ;;
         pages <- findPagesForVersion appVersionId ;;
         events <- findEventsForVersion appVersionId ;;
         ret (mkCloned pages events)
     end)
    appVersionId.

End Clone.

(** ** Notions the properties are stated with *)

(** The pages of a version, in the store's order. *)
Definition pagesOfVersion (st : Store) (appVersionId : string) : list Page.t :=
  filter (fun p => String.eqb (Page.appVersionId p) appVersionId) (pages st).

(** The dense, contiguous sequence of [n] indices that starts at
    [base]. *)
Fixpoint indicesFrom (base : Z) (n : nat) : list Z :=
  match n with
  | 0 => []
  | S m => base :: indicesFrom (base + 1) m
  end.

(** The row a page is replaced by when every page of [qs] is written to
    the row of its id. *)
Definition written (qs : list Page.t) (r : Page.t) : Page.t :=
  match find (hasId (Page.id r)) qs with
  | Some q => q
  | None => r
  end.

Definition decrement (page : Page.t) : Page.t :=
  Page.withIndex (Page.index page - 1)%Z page.

(** The step of [rearrangePagesOnDelete] at one position of the
    array. *)
Definition rearranged (pageDeletedIndex : Z) (page : Page.t) (index : nat) : Page.t :=
  if (Z.of_nat index + 1 >=? pageDeletedIndex)%Z then decrement page else page.

(** Membership of the key of a row among the keys of [ks]. *)
Definition keyAmong {A B : Type} (key : A -> string) (keyOf : B -> string) (ks : list B)
  (x : A) : bool :=
  existsb (fun b => String.eqb (key x) (keyOf b)) ks.

(** A store whose tables begin with the tables of another. *)
Definition extends (st st' : Store) : Prop :=
  (exists rows, pages st' = pages st ++ rows)
  /\ (exists rows, components st' = components st ++ rows)
  /\ (exists rows, layouts st' = layouts st ++ rows)
  /\ (exists rows, eventHandlers st' = eventHandlers st ++ rows).

Definition componentCloneOf (clonePageId : string) (component clone : Component.t) : Prop :=
  clone = Component.withId (Component.id clone) (Component.withPageId clonePageId component).

Definition layoutCloneOf (componentId : string) (layout clone : Layout.t) : Prop :=
  clone = Layout.withId (Layout.id clone) (Layout.withComponentId componentId layout).

Definition eventCloneOf (componentsIdMap : IdMap.t) (sourceId : string)
  (event clone : EventHandler.t) : Prop :=
  clone = EventHandler.withId (EventHandler.id clone)
            (EventHandler.withSourceId sourceId (remapEvent componentsIdMap event)).

(** The table after the pairs of components and clones are recorded. *)
Definition recorded (pairs : list (Component.t * Component.t)) (componentsIdMap : IdMap.t)
  : IdMap.t :=
  fold_left (fun m pair => IdMap.set m (Component.id (fst pair)) (Component.id (snd pair)))
            pairs componentsIdMap.

(** The row of a clone after the last loop. *)
Definition reparented (componentsIdMap : IdMap.t) (clone : Component.t) : Component.t :=
  match IdMap.truthy (IdMap.get componentsIdMap (IdMap.key (Component.parent clone) "null")) with
  | Some componentId => Component.withParent (Some componentId) clone
  | None => clone
  end.

(** The components of a page, the layouts of a component and the event
    handlers of a source, in the store's order. *)
Definition componentsOf (st : Store) (pageId : string) : list Component.t :=
  filter (fun c => String.eqb (Component.pageId c) pageId) (components st).

Definition layoutsOf (st : Store) (componentId : string) : list Layout.t :=
  filter (fun l => String.eqb (Layout.componentId l) componentId) (layouts st).

Definition eventsOf (st : Store) (sourceId : string) : list EventHandler.t :=
  filter (fun e => String.eqb (EventHandler.sourceId e) sourceId) (eventHandlers st).

(** What a clone of the page [pageId] into the page [clonePageId] adds
    to the store [st]: the clones [PE] of the event handlers of the
    page; the components of the page paired with their clones as they
    are inserted; for every pair the clones of the layouts of the
    component ([LL]) and of its event handlers ([EE]). *)
Definition cloneShape (st : Store) (pageId clonePageId : string)
  (pairs : list (Component.t * Component.t)) (PE : list EventHandler.t)
  (LL : list (list Layout.t)) (EE : list (list EventHandler.t)) : Prop :=
  Forall2 (eventCloneOf IdMap.empty clonePageId) (eventsOf st pageId) PE
  /\ map fst pairs = componentsOf st pageId
  /\ Forall (fun pair =>
               componentCloneOf clonePageId (fst pair) (snd pair)
               /\ ~ In (Component.id (snd pair)) (identifiers st)
               /\ Component.id (snd pair) <> ""
               /\ Component.id (snd pair) <> clonePageId) pairs
  /\ NoDup (map (fun pair => Component.id (snd pair)) pairs)
  /\ Forall2 (fun pair L =>
                Forall2 (layoutCloneOf (Component.id (snd pair)))
                        (layoutsOf st (Component.id (fst pair))) L) pairs LL
  /\ Forall2 (fun pair E =>
                Forall2 (eventCloneOf (recorded pairs IdMap.empty) (Component.id (snd pair)))
                        (eventsOf st (Component.id (fst pair))) E) pairs EE.

(** The store after the clone. *)
Definition cloneStore (st : Store) (newPages : list Page.t)
  (pairs : list (Component.t * Component.t)) (PE : list EventHandler.t)
  (LL : list (list Layout.t)) (EE : list (list EventHandler.t)) : Store :=
  mkStore (pages st ++ newPages)
          (components st
           ++ map (fun pair => reparented (recorded pairs IdMap.empty) (snd pair)) pairs)
          (layouts st ++ List.concat LL)
          (eventHandlers st ++ PE ++ List.concat EE)
          (appVersions st).

(** The number of pages of the version that collide with the name or
    the handle a copy of [p] would get. *)
Definition collisions (st : Store) (appVersionId : string) (p : Page.t) : nat :=
  List.length
    (pageNameORHandleExists (pagesOfVersion st appVersionId)
                            (Page.name p ++ " (copy)")%string
                            (Page.handle p ++ "-copy")%string).

(** The row [r] after the last loop went over [clones]. *)
Definition rowAfter (componentsIdMap : IdMap.t) (clones : list Component.t) (r : Component.t)
  : Component.t :=
  match find (fun x => String.eqb (Component.id x) (Component.id r)) clones with
  | Some x =>
      match IdMap.truthy (IdMap.get componentsIdMap (IdMap.key (Component.parent x) "null")) with
      | Some componentId => Component.withParent (Some componentId) r
      | None => r
      end
  | None => r
  end.

(** The counts of a page: its components; the layouts of its
    components; the event handlers of the page and of its components.
    Layouts and event handlers are joined to the components on the id
    of the component. *)
Definition componentCount (st : Store) (pageId : string) : nat :=
  List.length (componentsOf st pageId).

Definition layoutCount (st : Store) (pageId : string) : nat :=
  List.length (flat_map (fun c => layoutsOf st (Component.id c)) (componentsOf st pageId)).

Definition eventCount (st : Store) (pageId : string) : nat :=
  List.length (eventsOf st pageId)
  + List.length (flat_map (fun c => eventsOf st (Component.id c)) (componentsOf st pageId)).

(** The index a reorder request leaves a page with: the number the
    request holds for the id of the page, and the index the page has
    when the request does not name it or holds no number for it. *)
Definition reorderedIndex (pages : Js.obj) (p : Page.t) : Z :=
  if existsb (String.eqb (Page.id p)) (Js.keys pages) then
    match Js.prop (Js.get pages (Page.id p)) "index" with
    | Some value => Page.orElse (Js.asNumber value) (Page.index p)
    | None => Page.index p
    end
  else Page.index p.

(** [{ ...page, name: n }]. *)
Definition renamed (n : string) (p : Page.t) : Page.t :=
  Page.mk (Page.id p) n (Page.handle p) (Page.index p) (Page.appVersionId p).

(** The entry of a page in the listing of its version. *)
Definition listed (st : Store) (p : Page.t) : PageListing :=
  mkPageListing (Page.id p) (Page.name p) (Page.handle p) (Page.index p)
                (filter (fun c => String.eqb (Component.pageId c) (Page.id p)) (components st)).

(** [pages[pageId].index] where it is read without a [TypeError]. *)
Definition requested (pages : Js.obj) (pageId : string) : Js.value :=
  match Js.prop (Js.get pages pageId) "index" with
  | Some value => value
  | None => Js.undefined
  end.

(** A key of a reorder request is well typed when [pages[key].index]
    is a number or is [undefined], as it is when the value has no such
    property. *)
Definition indexTyped (changes : Js.obj) (k : string) : Prop :=
  match Js.prop (Js.get changes k) "index" with
  | Some (Js.number _) | Some Js.undefined => True
  | _ => False
  end.

(** A key of a reorder request carries a number when [pages[key].index]
    is one. *)
Definition indexNumbered (changes : Js.obj) (k : string) : Prop :=
  match Js.prop (Js.get changes k) "index" with
  | Some (Js.number _) => True
  | _ => False
  end.

(** The key an event handler is looked up under in [componentsIdMap]
    when it is copied: [eventDefinition.componentId] of a handler with
    the action ["control-component"]. *)
Definition controlKeys (e : EventHandler.t) : list string :=
  match EventHandler.event e with
  | Some d =>
      if String.eqb (EventDefinition.actionId d) "control-component"
      then [IdMap.key (EventDefinition.componentId d) "undefined"]
      else []
  | None => []
  end.

(** The keys the clone of the page [pageId] writes and reads
    [componentsIdMap] under: the ids of the components of the page,
    their parents, and the components the event handlers of the page
    and of its components control. *)
Definition tableKeys (st : Store) (pageId : string) : list string :=
  map Component.id (componentsOf st pageId)
  ++ map (fun c => IdMap.key (Component.parent c) "null") (componentsOf st pageId)
  ++ flat_map controlKeys (eventsOf st pageId)
  ++ flat_map (fun c => flat_map controlKeys (eventsOf st (Component.id c)))
              (componentsOf st pageId).

(** None of these keys is a name every object inherits. *)
Definition plainKeys (st : Store) (pageId : string) : Prop :=
  forallb (fun k => negb (existsb (String.eqb k) Js.inherited)) (tableKeys st pageId) = true.

(** The layout rows [L] copy the layout rows [originals] onto the
    component [componentId], one for one. *)
Definition layoutCopies (componentId : string) (originals L : list Layout.t) : Prop :=
  Forall2 (fun l l' =>
             Layout.geometry l' = Layout.geometry l
             /\ Layout.componentId l' = componentId)
          originals L.

(** ** Stores to run the service on *)

(** Two pages of version ["V"] and a request that swaps their indices
    under the id of a page that does not exist. *)
Definition twoPages : Store :=
  mkStore [Page.mk "p1" "First" "first" 1 "V"; Page.mk "p2" "Second" "second" 2 "V"]
          [] [] [] [AppVersion.mk "V" (Some "p1")].

Definition swapOfGhost : UpdatePageDto :=
  mkUpdatePageDto "ghost"
    [("p1", Js.object [("index", Js.number 2)]);
     ("p2", Js.object [("index", Js.number 1)])].

Definition renameOfGhost : UpdatePageDto :=
  mkUpdatePageDto "ghost" [("name", Js.str "Renamed")].

(** A version whose home page has no row. *)
Definition homeless : Store :=
  mkStore [Page.mk "p2" "Second" "second" 2 "V"] [] [] [] [AppVersion.mk "V" (Some "p1")].

(** Three pages of version ["V"], home page ["A"], numbered from
    [base] in the order of the rows. *)
Definition threePages (base : Z) : Store :=
  mkStore [Page.mk "A" "A" "a" base "V";
           Page.mk "B" "B" "b" (base + 1) "V";
           Page.mk "C" "C" "c" (base + 2) "V"]
          [] [] [] [AppVersion.mk "V" (Some "A")].

(** Version ["V"] with the page "Home" and a page "Home (copy)".  "Home"
    holds a button and a text inside the button, each with a layout; the
    page has an event handler that controls the button, the button one
    that controls the text. *)
Definition home : Page.t := Page.mk "p1" "Home" "home" 1 "V".

Definition button : Component.t := Component.mk "c1" "p1" None "button".

Definition text : Component.t := Component.mk "c2" "p1" (Some "c1") "text".

Definition onPageLoad : EventHandler.t :=
  EventHandler.mk "e1" "p1"
    (Some (EventDefinition.mk "onPageLoad" "control-component" (Some "c1"))) "V".

Definition onClick : EventHandler.t :=
  EventHandler.mk "e2" "c1"
    (Some (EventDefinition.mk "onClick" "control-component" (Some "c2"))) "V".

Definition homeStore : Store :=
  mkStore [home; Page.mk "p2" "Home (copy)" "home-copy" 2 "V"]
          [button; text]
          [Layout.mk "l1" "c1" "desktop"; Layout.mk "l2" "c2" "desktop"]
          [onPageLoad; onClick]
          [AppVersion.mk "V" (Some "p1")].

(** A page with one button and one event handler of the page that
    controls the button. *)
Definition controlStore : Store :=
  mkStore [home] [button] [] [onPageLoad] [AppVersion.mk "V" (Some "p1")].

(** Reorder requests for [twoPages]: one that swaps the two pages, one
    whose second value is [null], one that names no page. *)
Definition swap : Js.obj :=
  [("p1", Js.object [("index", Js.number 2)]);
   ("p2", Js.object [("index", Js.number 1)])].

Definition swapWithNull : Js.obj :=
  [("p1", Js.object [("index", Js.number 2)]); ("p2", Js.null)].


(** A request to create the page "About" and a request to rename the
    page ["p1"]. *)
Definition aboutPage : CreatePageDto.t := CreatePageDto.mk "p3" "About" "about" 3.

Definition renameOfFirst : UpdatePageDto := mkUpdatePageDto "p1" [("name", Js.str "Start")].

(** Two versions, each with its home page: ["p1"] is the home page of
    ["V"] and ["q1"] that of ["W"]. *)
Definition twoVersions : Store :=
  mkStore [Page.mk "p1" "First" "first" 1 "V"; Page.mk "p2" "Second" "second" 2 "V";
           Page.mk "q1" "Only" "only" 1 "W"]
          [] [] []
          [AppVersion.mk "V" (Some "p1"); AppVersion.mk "W" (Some "q1")].

(** A request that sets the indices of both pages of [twoPages] and
    names a page that does not exist. *)
Definition swapAndStranger : Js.obj :=
  [("p1", Js.object [("index", Js.number 2)]);
   ("p9", Js.object [("index", Js.number 7)]);
   ("p2", Js.object [("index", Js.number 1)])].

(** The page "Home" with a panel whose parent is a component of another
    page, and a label inside the panel.  The panel has two layout rows.
    Its event handler controls a component of the other page; the
    handler of the label controls the panel. *)
Definition panel : Component.t := Component.mk "c1" "p1" (Some "c9") "panel".

Definition label : Component.t := Component.mk "c2" "p1" (Some "c1") "label".

Definition onSelect : EventHandler.t :=
  EventHandler.mk "e1" "c1"
    (Some (EventDefinition.mk "onSelect" "control-component" (Some "c9"))) "V".

Definition onHover : EventHandler.t :=
  EventHandler.mk "e2" "c2"
    (Some (EventDefinition.mk "onHover" "control-component" (Some "c1"))) "V".

Definition strayStore : Store :=
  mkStore [home; Page.mk "p2" "Other" "other" 2 "V"]
          [panel; label; Component.mk "c9" "p2" None "modal"]
          [Layout.mk "l1" "c1" "desktop"; Layout.mk "l2" "c1" "mobile";
           Layout.mk "l3" "c2" "desktop"; Layout.mk "l4" "c9" "desktop"]
          [onSelect; onHover]
          [AppVersion.mk "V" (Some "p1")].

(** * Properties *)

(** ** The generator is realisable *)

Lemma longest_bound (known : list string) (s : string) :
  In s known -> String.length s <= longest known.
Proof.
  induction known as [|k rest IH]; simpl; intros Hin.
  - contradiction.
  - destruct Hin as [-> | Hin].
    + apply Nat.le_max_l.
    + etransitivity; [apply IH, Hin | apply Nat.le_max_r].
Qed.

Lemma zeros_length (n : nat) : String.length (zeros n) = n.
Proof. induction n; simpl; congruence. Qed.

Lemma longerThanAll_new (known : list string) : ~ In (longerThanAll known) known.
Proof.
  intros Hin. apply longest_bound in Hin.
  unfold longerThanAll in Hin. simpl in Hin. rewrite zeros_length in Hin. lia.
Qed.

Lemma longerThanAll_nonempty (known : list string) : longerThanAll known <> "".
Proof. discriminate. Qed.

#[export] Instance marks : IdGenerator := {
  generate := longerThanAll;
  generate_new := longerThanAll_new;
  generate_nonempty := longerThanAll_nonempty
}.

(** ** Substrings *)

Lemma prefix_append (pattern s : string) :
  String.prefix pattern s = true <-> exists rest, s = (pattern ++ rest)%string.
Proof.
  revert s. induction pattern as [|a pattern IH]; intros s.
  - split; [intros _; exists s; reflexivity | intros _; destruct s; reflexivity].
  - destruct s as [|b s]; cbn.
    + split; [discriminate | intros [rest Hrest]; discriminate].
    + destruct (Ascii.ascii_dec a b) as [->|Hne].
      * rewrite IH. split; intros [rest Hrest]; exists rest; congruence.
      * split; [discriminate | intros [rest Hrest]; congruence].
Qed.

(** [includes] is containment as a substring. *)
Lemma includes_substring (s pattern : string) :
  includes s pattern = true
  <-> exists before after, s = (before ++ pattern ++ after)%string.
Proof.
  induction s as [|a s IH].
  - cbn [includes]. destruct (String.prefix pattern "") eqn:Hprefix.
    + split; [|reflexivity]. intros _.
      apply prefix_append in Hprefix. destruct Hprefix as [rest Hrest].
      exists "", rest. exact Hrest.
    + split; [discriminate|]. intros [before [after Heq]].
      destruct before; [|discriminate]. cbn in Heq.
      assert (Htrue : String.prefix pattern "" = true)
        by (apply prefix_append; exists after; exact Heq).
      congruence.
  - cbn [includes]. destruct (String.prefix pattern (String a s)) eqn:Hprefix.
    + split; [|reflexivity]. intros _.
      apply prefix_append in Hprefix. destruct Hprefix as [rest Hrest].
      exists "", rest. exact Hrest.
    + rewrite IH. split.
      * intros [before [after Heq]]. exists (String a before), after. cbn. congruence.
      * intros [before [after Heq]]. destruct before as [|b before].
        -- cbn in Heq.
           assert (Htrue : String.prefix pattern (String a s) = true)
             by (apply prefix_append; exists after; exact Heq).
           congruence.
        -- cbn in Heq. injection Heq as _ Heq. exists before, after. exact Heq.
Qed.

(** ** Running computations *)

Lemma bind_returned {A B : Type} (m : M A) (k : A -> M B) (st st' : Store) (a : A) :
  m st = (Returned a, st') -> bind m k st = k a st'.
Proof. intros H. unfold bind. rewrite H. reflexivity. Qed.

Lemma bind_thrown {A B : Type} (m : M A) (k : A -> M B) (st st' : Store) (e : Exception) :
  m st = (Thrown e, st') -> bind m k st = (Thrown e, st').
Proof. intros H. unfold bind. rewrite H. reflexivity. Qed.

Lemma find_none_iff (pageId : string) (ps : list Page.t) :
  find (hasId pageId) ps = None <-> (forall p, In p ps -> Page.id p <> pageId).
Proof.
  split.
  - intros H p Hin Heq.
    apply (find_none _ _ H) in Hin. unfold hasId in Hin.
    rewrite Heq, String.eqb_refl in Hin. discriminate.
  - intros H. induction ps as [|q rest IH]; simpl; [reflexivity|].
    unfold hasId at 1. destruct (String.eqb_spec (Page.id q) pageId) as [Heq|_].
    + exfalso. apply (H q); [left; reflexivity | exact Heq].
    + apply IH. intros p Hin. apply H. right. exact Hin.
Qed.

(** ** Update *)

(** C5. When the change-set of an update has more than one key,
    [updatePage] is [updatePagesOrder] on that change-set and the same
    version: both leave the same store, and one throws exactly when the
    other does, with the same exception. *)
Theorem updatePage_multi_field_is_updatePagesOrder
  (pageUpdates : UpdatePageDto) (appVersionId : string) (st : Store) :
  1 < List.length (Js.keys (diff pageUpdates)) ->
  snd (updatePage pageUpdates appVersionId st)
  = snd (updatePagesOrder (diff pageUpdates) appVersionId st)
  /\ (fst (updatePagesOrder (diff pageUpdates) appVersionId st) = Returned tt ->
      fst (updatePage pageUpdates appVersionId st) = Returned None)
  /\ (forall e,
        fst (updatePagesOrder (diff pageUpdates) appVersionId st) = Thrown e <->
        fst (updatePage pageUpdates appVersionId st) = Thrown e).
Proof.
  intros Hkeys. unfold updatePage.
  apply Nat.ltb_lt in Hkeys. rewrite Hkeys.
  change (bind (updatePagesOrder (diff pageUpdates) appVersionId) (fun _ => ret None) st)
    with (match updatePagesOrder (diff pageUpdates) appVersionId st with
          | (Returned _, st') => (Returned (@None UpdateResult), st')
          | (Thrown e, st') => (Thrown e, st')
          end).
  destruct (updatePagesOrder (diff pageUpdates) appVersionId st) as [[[]|e'] st'];
    simpl; repeat split; try congruence; try discriminate.
Qed.

(** C4, as amended.  When the change-set of an update has at most one
    key and no page has the id of the request, [updatePage] throws
    ["Page not found"], a [NotFound], and leaves the store as it
    was. *)
Theorem updatePage_missing_page_not_found
  (pageUpdates : UpdatePageDto) (appVersionId : string) (st : Store) :
  List.length (Js.keys (diff pageUpdates)) <= 1 ->
  (forall p, In p (pages st) -> Page.id p <> pageId pageUpdates) ->
  updatePage pageUpdates appVersionId st = (Thrown (Error "Page not found"), st)
  /\ kind (Error "Page not found") = NotFound.
Proof.
  intros Hkeys Hmissing. split; [|reflexivity].
  unfold updatePage.
  destruct (Nat.ltb_spec 1 (List.length (Js.keys (diff pageUpdates)))) as [Hlt|_]; [lia|].
  unfold bind, findOnePage.
  apply find_none_iff in Hmissing. rewrite Hmissing. reflexivity.
Qed.

Lemma twoPages_no_ghost : forall p, In p (pages twoPages) -> Page.id p <> "ghost".
Proof.
  intros p [<- | [<- | []]]; discriminate.
Defined.

Lemma updatePage_multi_field_is_updatePagesOrder_witness :
  1 < List.length (Js.keys (diff swapOfGhost))
  /\ snd (updatePage swapOfGhost "V" twoPages)
     = snd (updatePagesOrder (diff swapOfGhost) "V" twoPages).
Proof.
  split.
  - apply Nat.lt_succ_diag_r.
  - exact (proj1 (updatePage_multi_field_is_updatePagesOrder
                    swapOfGhost "V" twoPages (Nat.lt_succ_diag_r 1))).
Defined.

Lemma updatePage_missing_page_not_found_witness :
  List.length (Js.keys (diff renameOfGhost)) <= 1
  /\ (forall p, In p (pages twoPages) -> Page.id p <> pageId renameOfGhost)
  /\ updatePage renameOfGhost "V" twoPages = (Thrown (Error "Page not found"), twoPages).
Proof.
  split; [apply le_n|]. split; [exact twoPages_no_ghost|].
  exact (proj1 (updatePage_missing_page_not_found
                  renameOfGhost "V" twoPages (le_n 1) twoPages_no_ghost)).
Defined.

(** C4, as stated, fails: with two keys in the change-set the request
    is taken as a reorder before the page is looked up.  No page has the
    id ["ghost"], yet [updatePage] returns and the indices of both pages
    are written. *)
Lemma updatePage_missing_page_multi_field_returns :
  (forall p, In p (pages twoPages) -> Page.id p <> pageId swapOfGhost)
  /\ updatePage swapOfGhost "V" twoPages
     = (Returned None,
        withPages [Page.mk "p1" "First" "first" 2 "V"; Page.mk "p2" "Second" "second" 1 "V"]
                  twoPages)
  /\ fst (updatePage swapOfGhost "V" twoPages) <> Thrown (Error "Page not found")
  /\ pages (snd (updatePage swapOfGhost "V" twoPages)) <> pages twoPages.
Proof.
  split; [exact twoPages_no_ghost|].
  split; [reflexivity|].
  split; [discriminate|].
  vm_compute. discriminate.
Qed.

(** ** Delete: the home page *)

(** C3, as amended.  When the call names a version and [pageId] is the
    home page of that version, [deletePage] throws and leaves the store
    as it was: no page row, no event handler and no index is written.
    It throws ["Cannot delete home page"], an [InvariantViolation], when
    the page has a row, and ["Page not found"] when it has none: the row
    is looked up first.  The home page that is checked is that of the
    version the call names. *)
Theorem deletePage_home_page_throws
  (pageId appVersionId : string) (version : AppVersion.t) (st : Store) :
  find (fun v => String.eqb (AppVersion.id v) appVersionId) (appVersions st) = Some version ->
  AppVersion.homePageId version = Some pageId ->
  ((exists p, In p (pages st) /\ Page.id p = pageId) ->
   deletePage pageId appVersionId st = (Thrown (Error "Cannot delete home page"), st)
   /\ kind (Error "Cannot delete home page") = InvariantViolation)
  /\ ((forall p, In p (pages st) -> Page.id p <> pageId) ->
      deletePage pageId appVersionId st = (Thrown (Error "Page not found"), st)).
Proof.
  intros Hversion Hhome.
  unfold deletePage, dbTransactionForAppVersionAssociationsUpdate, bind,
    findAppFromVersion, findOnePage.
  rewrite Hversion. cbn [editingVersion].
  split.
  - intros [p [Hin Hid]]. split; [|reflexivity].
    destruct (find (hasId pageId) (pages st)) as [q|] eqn:Hfind.
    + unfold isHomePage. rewrite Hhome, String.eqb_refl. reflexivity.
    + exfalso. exact (proj1 (find_none_iff _ _) Hfind p Hin Hid).
  - intros Hmissing. rewrite (proj2 (find_none_iff _ _) Hmissing). reflexivity.
Qed.

Lemma twoPages_has_p1 : exists p, In p (pages twoPages) /\ Page.id p = "p1".
Proof.
  exists (Page.mk "p1" "First" "first" 1 "V"). split; [left; reflexivity | reflexivity].
Defined.

Lemma deletePage_home_page_throws_witness :
  find (fun v => String.eqb (AppVersion.id v) "V") (appVersions twoPages)
  = Some (AppVersion.mk "V" (Some "p1"))
  /\ deletePage "p1" "V" twoPages = (Thrown (Error "Cannot delete home page"), twoPages).
Proof.
  split; [reflexivity|].
  exact (proj1 (proj1 (deletePage_home_page_throws
                         "p1" "V" (AppVersion.mk "V" (Some "p1")) twoPages
                         eq_refl eq_refl)
                      twoPages_has_p1)).
Defined.

(** C3, as stated, fails: the id is the home page of the version, and
    the failure is ["Page not found"], a [NotFound]. *)
Lemma deletePage_home_page_without_row :
  isHomePage (editingVersion (mkApp (Some (AppVersion.mk "V" (Some "p1"))))) "p1" = true
  /\ fst (findAppFromVersion "V" homeless) = Returned (mkApp (Some (AppVersion.mk "V" (Some "p1"))))
  /\ deletePage "p1" "V" homeless = (Thrown (Error "Page not found"), homeless)
  /\ kind (Error "Page not found") <> InvariantViolation.
Proof.
  repeat split; discriminate.
Qed.

(** The check reads the home page of the version the call names, not
    of the version the page belongs to: a call that names another
    version deletes the home page of ["V"]. *)
Lemma deletePage_home_page_under_another_version :
  find (fun v => String.eqb (AppVersion.id v) "V") (appVersions twoVersions)
  = Some (AppVersion.mk "V" (Some "p1"))
  /\ fst (deletePage "p1" "W" twoVersions) = Returned [tt]
  /\ pages (snd (deletePage "p1" "W" twoVersions))
     = [Page.mk "p2" "Second" "second" 1 "V"; Page.mk "q1" "Only" "only" 1 "W"].
Proof.
  repeat split.
Qed.

(** ** Delete: the indices of the remaining pages *)

Lemma assign_whole (q r : Page.t) : Page.assign (Page.whole q) r = q.
Proof. destruct q; reflexivity. Qed.

Lemma hasId_sym (q r : Page.t) : hasId (Page.id q) r = hasId (Page.id r) q.
Proof. unfold hasId. apply String.eqb_sym. Qed.

Lemma find_hasId_notin (pageId : string) (qs : list Page.t) :
  ~ In pageId (map Page.id qs) -> find (hasId pageId) qs = None.
Proof.
  intros Hnotin. apply find_none_iff. intros p Hin Heq.
  apply Hnotin. rewrite <- Heq. apply in_map. exact Hin.
Qed.

Lemma update_all_run (qs : list Page.t) (st : Store) :
  mapM (fun page => updatePageRow (Page.id page) (Page.whole page) ;; ret tt) qs st
  = (Returned (map (fun _ => tt) qs),
     withPages
       (fold_left (fun table q => map (fun r => if hasId (Page.id q) r then q else r) table)
                  qs (pages st))
       st).
Proof.
  revert st. induction qs as [|q rest IH]; intros st.
  - destruct st; reflexivity.
  - cbn [mapM].
    erewrite bind_returned by reflexivity.
    erewrite bind_returned by apply IH.
    unfold ret, withPages.
    cbn [fold_left map pages components layouts eventHandlers appVersions].
    do 3 f_equal. apply map_ext. intros r.
    rewrite assign_whole. reflexivity.
Qed.

Lemma fold_written (qs : list Page.t) (table : list Page.t) :
  NoDup (map Page.id qs) ->
  fold_left (fun table q => map (fun r => if hasId (Page.id q) r then q else r) table) qs table
  = map (written qs) table.
Proof.
  revert table. induction qs as [|q rest IH]; intros table Hnodup.
  - cbn. symmetry. erewrite map_ext; [apply map_id|]. reflexivity.
  - cbn [fold_left]. inversion Hnodup as [|? ? Hnotin Hrest]; subst.
    rewrite IH by exact Hrest. rewrite map_map. apply map_ext. intros r.
    unfold written at 2. cbn [find]. rewrite (hasId_sym r q).
    destruct (hasId (Page.id q) r) eqn:Hq.
    + unfold written. rewrite find_hasId_notin by exact Hnotin. reflexivity.
    + reflexivity.
Qed.

Lemma find_append {A : Type} (f : A -> bool) (l1 l2 : list A) :
  find f (l1 ++ l2) = match find f l1 with Some x => Some x | None => find f l2 end.
Proof.
  induction l1 as [|x rest IH]; cbn; [reflexivity|].
  destruct (f x); [reflexivity | exact IH].
Qed.

Lemma written_self (pre qs rows : list Page.t) :
  NoDup (map Page.id rows) ->
  map Page.id qs = map Page.id rows ->
  (forall r, In r rows -> ~ In (Page.id r) (map Page.id pre)) ->
  map (written (pre ++ qs)) rows = qs.
Proof.
  revert pre qs. induction rows as [|r rest IH]; intros pre qs Hnodup Hids Hpre.
  - destruct qs; [reflexivity | discriminate].
  - destruct qs as [|q qs]; [discriminate|].
    cbn in Hids. injection Hids as Hid Hids.
    inversion Hnodup as [|? ? Hnotin Hrest]; subst.
    cbn [map]. f_equal.
    + unfold written. rewrite find_append.
      rewrite find_hasId_notin by (apply Hpre; left; reflexivity).
      cbn [find]. unfold hasId. rewrite Hid, String.eqb_refl. reflexivity.
    + change (pre ++ q :: qs) with (pre ++ [q] ++ qs). rewrite app_assoc.
      apply IH; [exact Hrest | exact Hids |].
      intros x Hin. rewrite map_app, in_app_iff. cbn. intros [Hx | [Hx | []]].
      * apply (Hpre x); [right; exact Hin | exact Hx].
      * apply Hnotin. rewrite <- Hid, Hx. apply in_map. exact Hin.
Qed.

Lemma NoDup_ids_injective (l : list Page.t) (x y : Page.t) :
  NoDup (map Page.id l) -> In x l -> In y l -> Page.id x = Page.id y -> x = y.
Proof.
  induction l as [|z rest IH]; intros Hnodup Hx Hy Heq; [contradiction|].
  cbn in Hnodup. inversion Hnodup as [|? ? Hnotin Hrest]; subst.
  destruct Hx as [-> | Hx], Hy as [-> | Hy].
  - reflexivity.
  - exfalso. apply Hnotin. rewrite Heq. apply in_map. exact Hy.
  - exfalso. apply Hnotin. rewrite <- Heq. apply in_map. exact Hx.
  - apply IH; assumption.
Qed.

Lemma NoDup_ids_filter (f : Page.t -> bool) (l : list Page.t) :
  NoDup (map Page.id l) -> NoDup (map Page.id (filter f l)).
Proof.
  induction l as [|z rest IH]; intros Hnodup; [constructor|].
  cbn in Hnodup. inversion Hnodup as [|? ? Hnotin Hrest]; subst.
  cbn. destruct (f z); [|apply IH; exact Hrest].
  cbn. constructor; [|apply IH; exact Hrest].
  intros Hin. apply Hnotin. apply in_map_iff in Hin. destruct Hin as [x [Hid Hin]].
  apply filter_In in Hin. rewrite <- Hid. apply in_map. apply Hin.
Qed.

Lemma find_hasId_unique (l : list Page.t) (p : Page.t) :
  NoDup (map Page.id l) -> In p l -> find (hasId (Page.id p)) l = Some p.
Proof.
  intros Hnodup Hin.
  destruct (find (hasId (Page.id p)) l) as [q|] eqn:Hfind.
  - apply find_some in Hfind. destruct Hfind as [Hq Hid].
    unfold hasId in Hid. apply String.eqb_eq in Hid.
    f_equal. apply (NoDup_ids_injective l); assumption.
  - exfalso. exact (proj1 (find_none_iff _ _) Hfind p Hin eq_refl).
Qed.

Lemma filter_map_preserved {A : Type} (f : A -> bool) (h : A -> A) (l : list A) :
  (forall x, In x l -> f (h x) = f x) -> filter f (map h l) = map h (filter f l).
Proof.
  induction l as [|x rest IH]; intros Hpres; [reflexivity|].
  cbn. rewrite (Hpres x (or_introl eq_refl)).
  rewrite IH by (intros y Hy; apply Hpres; right; exact Hy).
  destruct (f x); reflexivity.
Qed.

Lemma filter_swap {A : Type} (f g : A -> bool) (l : list A) :
  filter f (filter g l) = filter g (filter f l).
Proof.
  induction l as [|x rest IH]; [reflexivity|].
  cbn. destruct (f x) eqn:Hf, (g x) eqn:Hg; cbn; rewrite ?Hf, ?Hg, IH; reflexivity.
Qed.

Lemma filter_all {A : Type} (f : A -> bool) (l : list A) :
  (forall x, In x l -> f x = true) -> filter f l = l.
Proof.
  induction l as [|x rest IH]; intros Hall; [reflexivity|].
  cbn. rewrite (Hall x (or_introl eq_refl)).
  f_equal. apply IH. intros y Hy. apply Hall. right. exact Hy.
Qed.

(** Writing the pages [qs] of a version, one for every row of the
    version and under the ids of these rows, leaves exactly [qs] as the
    pages of the version. *)
Lemma written_version (v : string) (qs table : list Page.t) :
  let inV := fun p => String.eqb (Page.appVersionId p) v in
  NoDup (map Page.id table) ->
  map Page.id qs = map Page.id (filter inV table) ->
  (forall q, In q qs -> inV q = true) ->
  filter inV (map (written qs) table) = qs.
Proof.
  intros inV Hnodup Hids Hqs.
  rewrite filter_map_preserved.
  - apply (written_self [] qs (filter inV table)).
    + apply NoDup_ids_filter. exact Hnodup.
    + exact Hids.
    + intros r _ [].
  - intros r Hr. unfold written.
    destruct (find (hasId (Page.id r)) qs) as [q|] eqn:Hfind; [|reflexivity].
    apply find_some in Hfind. destruct Hfind as [Hq Hid].
    rewrite (Hqs q Hq).
    assert (Hin : In (Page.id q) (map Page.id (filter inV table)))
      by (rewrite <- Hids; apply in_map; exact Hq).
    apply in_map_iff in Hin. destruct Hin as [r' [Hid' Hr']].
    apply filter_In in Hr'. destruct Hr' as [Hr' HinV].
    unfold hasId in Hid. apply String.eqb_eq in Hid.
    assert (r' = r) by (apply (NoDup_ids_injective table); congruence).
    subst r'. symmetry. exact HinV.
Qed.

(** *** The arithmetic of the rearrangement *)

Lemma indicesFrom_append (base : Z) (n m : nat) :
  indicesFrom base (n + m) = indicesFrom base n ++ indicesFrom (base + Z.of_nat n) m.
Proof.
  revert base. induction n as [|n IH]; intros base.
  - cbn. rewrite Z.add_0_r. reflexivity.
  - cbn [Nat.add indicesFrom app]. rewrite IH.
    replace (base + Z.of_nat (S n))%Z with (base + 1 + Z.of_nat n)%Z by lia.
    reflexivity.
Qed.

Lemma indicesFrom_succ (base : Z) (n : nat) :
  indicesFrom base (S n) = base :: indicesFrom (base + 1) n.
Proof. reflexivity. Qed.

Lemma indicesFrom_length (base : Z) (n : nat) : List.length (indicesFrom base n) = n.
Proof.
  revert base. induction n as [|n IH]; intros base; cbn; [reflexivity|].
  f_equal. apply IH.
Qed.

Lemma cons_injective {A : Type} (x y : A) (l l' : list A) :
  x :: l = y :: l' -> x = y /\ l = l'.
Proof. intros H. injection H as Hx Hl. split; assumption. Qed.

Lemma append_injective {A : Type} (l1 l1' l2 l2' : list A) :
  List.length l1 = List.length l1' -> l1 ++ l2 = l1' ++ l2' -> l1 = l1' /\ l2 = l2'.
Proof.
  revert l1'. induction l1 as [|x rest IH]; intros [|y rest'] Hlen Heq;
    try discriminate.
  - split; [reflexivity | exact Heq].
  - cbn in Hlen, Heq. injection Hlen as Hlen. injection Heq as -> Heq.
    destruct (IH rest' Hlen Heq) as [-> ->]. split; reflexivity.
Qed.

Lemma indicesFrom_pred (base : Z) (n : nat) :
  map (fun i => i - 1)%Z (indicesFrom base n) = indicesFrom (base - 1) n.
Proof.
  revert base. induction n as [|n IH]; intros base; [reflexivity|].
  cbn. rewrite IH. do 2 f_equal. lia.
Qed.

Lemma indices_split (base : Z) (l1 l2 : list Page.t) :
  map Page.index (l1 ++ l2) = indicesFrom base (List.length (l1 ++ l2)) ->
  map Page.index l1 = indicesFrom base (List.length l1)
  /\ map Page.index l2 = indicesFrom (base + Z.of_nat (List.length l1)) (List.length l2).
Proof.
  rewrite map_app, length_app, indicesFrom_append. intros H.
  apply append_injective in H; [exact H|].
  rewrite length_map, indicesFrom_length. reflexivity.
Qed.

Lemma mapi_from_append {A B : Type} (f : A -> nat -> B) (start : nat) (l1 l2 : list A) :
  mapi_from f start (l1 ++ l2)
  = mapi_from f start l1 ++ mapi_from f (start + List.length l1) l2.
Proof.
  revert start. induction l1 as [|x rest IH]; intros start; cbn.
  - rewrite Nat.add_0_r. reflexivity.
  - rewrite IH. rewrite Nat.add_succ_r. reflexivity.
Qed.

Lemma mapi_from_ids {A : Type} (f : Page.t -> nat -> Page.t) (start : nat) (l : list Page.t)
  (g : Page.t -> A) :
  (forall p i, g (f p i) = g p) -> map g (mapi_from f start l) = map g l.
Proof.
  intros Hg. revert start. induction l as [|x rest IH]; intros start; cbn; [reflexivity|].
  rewrite Hg, IH. reflexivity.
Qed.

Lemma rearranged_before (pageDeletedIndex : Z) (start : nat) (l : list Page.t) :
  (Z.of_nat start + Z.of_nat (List.length l) < pageDeletedIndex)%Z ->
  mapi_from (rearranged pageDeletedIndex) start l = l.
Proof.
  revert start. induction l as [|x rest IH]; intros start Hlt; cbn; [reflexivity|].
  cbn [List.length] in Hlt. unfold rearranged at 1. rewrite Z.geb_leb.
  destruct (Z.leb_spec pageDeletedIndex (Z.of_nat start + 1)) as [Hle|_]; [lia|].
  f_equal. apply IH. lia.
Qed.

Lemma rearranged_after (pageDeletedIndex : Z) (start : nat) (l : list Page.t) :
  (pageDeletedIndex <= Z.of_nat start + 1)%Z ->
  mapi_from (rearranged pageDeletedIndex) start l = map decrement l.
Proof.
  revert start. induction l as [|x rest IH]; intros start Hle; cbn; [reflexivity|].
  unfold rearranged at 1. rewrite Z.geb_leb.
  destruct (Z.leb_spec pageDeletedIndex (Z.of_nat start + 1)) as [_|Hlt]; [|lia].
  f_equal. apply IH. lia.
Qed.

(** Rows in index order, one-based, from which the row [p] is taken
    out: the rearrangement closes the gap. *)
Lemma rearrange_one_based (l1 l2 : list Page.t) (p : Page.t) :
  map Page.index (l1 ++ p :: l2) = indicesFrom 1 (List.length (l1 ++ p :: l2)) ->
  map Page.index (rearrangePagesOnDelete (l1 ++ l2) (Page.index p))
  = indicesFrom 1 (List.length (l1 ++ l2)).
Proof.
  intros Hindices.
  apply indices_split in Hindices. destruct Hindices as [H1 H2].
  cbn [map List.length] in H2. rewrite indicesFrom_succ in H2.
  apply cons_injective in H2. destruct H2 as [Hp H2].
  change (rearrangePagesOnDelete (l1 ++ l2) (Page.index p))
    with (mapi_from (rearranged (Page.index p)) 0 (l1 ++ l2)).
  rewrite mapi_from_append.
  rewrite (rearranged_before (Page.index p) 0 l1) by (rewrite Hp; lia).
  rewrite (rearranged_after (Page.index p) (0 + List.length l1) l2) by (rewrite Hp; lia).
  rewrite map_app, map_map. cbn [decrement Page.withIndex Page.index].
  rewrite <- (map_map Page.index (fun i => i - 1)%Z), H1, H2, indicesFrom_pred.
  rewrite length_app, indicesFrom_append. do 2 f_equal. lia.
Qed.

Lemma isHomePage_false (version : option AppVersion.t) (pageId : string) :
  (forall v, version = Some v -> AppVersion.homePageId v <> Some pageId) ->
  isHomePage version pageId = false.
Proof.
  intros Hnot. destruct version as [v|]; [|reflexivity].
  unfold isHomePage. destruct (AppVersion.homePageId v) as [home|] eqn:Hhome; [|reflexivity].
  apply String.eqb_neq. intros ->. exact (Hnot v eq_refl Hhome).
Qed.

Lemma filter_out_one (l1 l2 : list Page.t) (p : Page.t) :
  NoDup (map Page.id (l1 ++ p :: l2)) ->
  filter (fun r => negb (hasId (Page.id p) r)) (l1 ++ p :: l2) = l1 ++ l2.
Proof.
  intros Hnodup.
  assert (Hother : forall x, In x (l1 ++ l2) -> negb (hasId (Page.id p) x) = true).
  { intros x Hx. apply negb_true_iff. unfold hasId. apply String.eqb_neq. intros Heq.
    rewrite map_app in Hnodup. cbn [map] in Hnodup.
    apply NoDup_remove_2 in Hnodup. apply Hnodup.
    rewrite <- map_app, <- Heq. apply in_map. exact Hx. }
  rewrite filter_app. cbn [filter]. unfold hasId at 2. rewrite String.eqb_refl. cbn [negb].
  rewrite <- filter_app. apply filter_all. exact Hother.
Qed.

(** C1, as amended.  Let the pages of the version of page [p] carry, in
    the store's order, the indices 1, 2, ..., n (one-based, the order of
    the rows that of the indices), and let [p] not be the home page.
    Then [deletePage] returns, the pages of the version are the other
    pages in their order, and their indices are 1, ..., n - 1: dense and
    contiguous from the least index before the delete. *)
Theorem deletePage_one_based_indices_stay_dense
  (pageId appVersionId : string) (p : Page.t) (st : Store) :
  NoDup (map Page.id (pages st)) ->
  In p (pages st) ->
  Page.id p = pageId ->
  (forall v, find (fun v => String.eqb (AppVersion.id v) appVersionId) (appVersions st) = Some v ->
             AppVersion.homePageId v <> Some pageId) ->
  map Page.index (pagesOfVersion st (Page.appVersionId p))
  = indicesFrom 1 (List.length (pagesOfVersion st (Page.appVersionId p))) ->
  exists answers st',
    deletePage pageId appVersionId st = (Returned answers, st')
    /\ map Page.id (pagesOfVersion st' (Page.appVersionId p))
       = map Page.id (filter (fun r => negb (hasId pageId r))
                             (pagesOfVersion st (Page.appVersionId p)))
    /\ map Page.index (pagesOfVersion st' (Page.appVersionId p))
       = indicesFrom 1 (List.length (pagesOfVersion st (Page.appVersionId p)) - 1).
Proof.
  intros Hnodup Hin Hid Hhome Hindices. subst pageId.
  set (inV := fun r => String.eqb (Page.appVersionId r) (Page.appVersionId p)).
  set (others := filter (fun r => negb (hasId (Page.id p) r)) (pages st)).
  set (qs := rearrangePagesOnDelete (filter inV others) (Page.index p)).
  assert (Hfind : find (hasId (Page.id p)) (pages st) = Some p)
    by (apply find_hasId_unique; assumption).
  assert (HinV : In p (pagesOfVersion st (Page.appVersionId p))).
  { apply filter_In. split; [exact Hin | apply String.eqb_refl]. }
  destruct (in_split _ _ HinV) as [l1 [l2 Hsplit]].
  assert (Hothers : filter inV others = l1 ++ l2).
  { unfold others. rewrite filter_swap.
    change (filter inV (pages st)) with (pagesOfVersion st (Page.appVersionId p)).
    rewrite Hsplit. apply filter_out_one. rewrite <- Hsplit.
    apply NoDup_ids_filter. exact Hnodup. }
  assert (Hqids : map Page.id qs = map Page.id (filter inV others)).
  { unfold qs, rearrangePagesOnDelete, mapi. apply mapi_from_ids.
    intros q i. destruct (_ >=? _)%Z; reflexivity. }
  assert (HqV : forall q, In q qs -> inV q = true).
  { intros q Hq.
    assert (Hall : Forall (fun x => inV x = true) qs).
    { apply Forall_forall. intros x Hx.
      assert (Hmap : In (Page.appVersionId x) (map Page.appVersionId qs)) by (apply in_map; exact Hx).
      unfold qs, rearrangePagesOnDelete, mapi in Hmap.
      rewrite mapi_from_ids in Hmap by (intros y i; destruct (_ >=? _)%Z; reflexivity).
      apply in_map_iff in Hmap. destruct Hmap as [y [Hy Hyin]].
      apply filter_In in Hyin. unfold inV at 1. rewrite <- Hy. apply Hyin. }
    rewrite Forall_forall in Hall. apply Hall. exact Hq. }
  assert (Hversion : forall st0,
             pagesOfVersion (withPages (map (written qs) others) st0) (Page.appVersionId p) = qs).
  { intros st0. unfold pagesOfVersion. cbn [pages withPages].
    apply written_version.
    - apply NoDup_ids_filter. exact Hnodup.
    - exact Hqids.
    - exact HqV. }
  exists (map (fun _ => tt) qs), (withPages (map (written qs) others)
                                    (withEventHandlers
                                       (filter (fun e => negb (String.eqb (EventHandler.sourceId e) (Page.id p)))
                                               (eventHandlers st)) st)).
  split; [|split].
  - unfold deletePage, dbTransactionForAppVersionAssociationsUpdate.
    erewrite bind_returned by reflexivity.
    erewrite bind_returned by reflexivity.
    rewrite Hfind. cbn [editingVersion].
    rewrite (isHomePage_false _ _ Hhome).
    erewrite bind_returned by reflexivity.
    erewrite bind_returned by reflexivity.
    cbn [affected pages withEventHandlers].
    destruct (Nat.eqb_spec (List.length (filter (hasId (Page.id p)) (pages st))) 0) as [Hzero|_].
    { exfalso. apply length_zero_iff_nil in Hzero.
      assert (Hp : In p (filter (hasId (Page.id p)) (pages st))).
      { apply filter_In. split; [exact Hin | apply String.eqb_refl]. }
      rewrite Hzero in Hp. exact Hp. }
    erewrite bind_returned by reflexivity.
    cbn [pages withPages].
    fold others. fold inV. fold qs.
    rewrite update_all_run. cbn [pages withPages].
    rewrite fold_written.
    + unfold withPages. reflexivity.
    + rewrite Hqids. apply NoDup_ids_filter. apply NoDup_ids_filter. exact Hnodup.
  - rewrite Hversion, Hqids. f_equal. unfold others. rewrite filter_swap. reflexivity.
  - rewrite Hversion. unfold qs. rewrite Hothers, Hsplit.
    rewrite rearrange_one_based by (rewrite <- Hsplit; exact Hindices).
    f_equal. rewrite !length_app. cbn [List.length]. lia.
Qed.

Lemma threePages_ids (base : Z) : NoDup (map Page.id (pages (threePages base))).
Proof.
  cbn. repeat constructor; cbn; intuition discriminate.
Defined.

Lemma threePages_home (base : Z) :
  forall v, find (fun v => String.eqb (AppVersion.id v) "V") (appVersions (threePages base)) = Some v ->
            AppVersion.homePageId v <> Some "B".
Proof.
  intros v Hv. cbn in Hv. injection Hv as <-. discriminate.
Defined.

Lemma deletePage_one_based_indices_stay_dense_witness :
  map Page.index (pagesOfVersion (threePages 1) "V") = [1; 2; 3]%Z
  /\ exists answers st',
       deletePage "B" "V" (threePages 1) = (Returned answers, st')
       /\ map Page.id (pagesOfVersion st' "V") = ["A"; "C"]
       /\ map Page.index (pagesOfVersion st' "V") = [1; 2]%Z.
Proof.
  split; [reflexivity|].
  exact (deletePage_one_based_indices_stay_dense
           "B" "V" (Page.mk "B" "B" "b" 2 "V") (threePages 1)
           (threePages_ids 1) (or_intror (or_introl eq_refl)) eq_refl
           (threePages_home 1) eq_refl).
Defined.

(** C1, as stated, fails on its own scenario: with the pages A, B, C at
    the indices 0, 1, 2, deleting B returns and leaves A at -1 and C
    at 1.  The position of a row plus one is compared with the index
    that was deleted, which is one too far when indices start at 0. *)
Lemma deletePage_zero_based_scenario :
  map Page.index (pagesOfVersion (threePages 0) "V") = indicesFrom 0 3
  /\ deletePage "B" "V" (threePages 0)
     = (Returned [tt; tt],
        withPages [Page.mk "A" "A" "a" (-1) "V"; Page.mk "C" "C" "c" 1 "V"] (threePages 0))
  /\ map Page.index (pagesOfVersion (snd (deletePage "B" "V" (threePages 0))) "V") = [-1; 1]%Z
  /\ map Page.index (pagesOfVersion (snd (deletePage "B" "V" (threePages 0))) "V")
     <> indicesFrom 0 2.
Proof.
  repeat split; discriminate.
Qed.

(** ** Rows and their keys *)

Lemma filter_or_length {A : Type} (a b : A -> bool) (l : list A) :
  (forall x, In x l -> a x = true -> b x = false) ->
  List.length (filter (fun x => a x || b x) l)
  = List.length (filter a l) + List.length (filter b l).
Proof.
  induction l as [|x rest IH]; intros Hdisjoint; [reflexivity|].
  assert (IH' := IH (fun y Hy => Hdisjoint y (or_intror Hy))).
  assert (Hx := Hdisjoint x (or_introl eq_refl)).
  cbn. destruct (a x), (b x); cbn; rewrite ?IH'; try lia.
Qed.

Section Keyed.

Context {A : Type} (key : A -> string).

Lemma keyed_filter_none (k : string) (l : list A) :
  (forall x, In x l -> key x <> k) -> filter (fun x => String.eqb (key x) k) l = [].
Proof.
  induction l as [|x rest IH]; intros Hne; [reflexivity|].
  cbn. destruct (String.eqb_spec (key x) k) as [Heq|_].
  - exfalso. exact (Hne x (or_introl eq_refl) Heq).
  - apply IH. intros y Hy. apply Hne. right. exact Hy.
Qed.

Lemma keyed_filter_every (k : string) (l : list A) :
  (forall x, In x l -> key x = k) -> filter (fun x => String.eqb (key x) k) l = l.
Proof.
  intros Hall. apply filter_all. intros x Hx. rewrite (Hall x Hx). apply String.eqb_refl.
Qed.

Lemma keyAmong_false {B : Type} (keyOf : B -> string) (ks : list B) (x : A) :
  ~ In (key x) (map keyOf ks) -> keyAmong key keyOf ks x = false.
Proof.
  intros Hnotin. unfold keyAmong.
  destruct (existsb _ ks) eqn:Hex; [|reflexivity].
  exfalso. apply existsb_exists in Hex. destruct Hex as [b [Hb Heq]].
  apply String.eqb_eq in Heq. apply Hnotin. rewrite Heq. apply in_map. exact Hb.
Qed.

Lemma keyAmong_true {B : Type} (keyOf : B -> string) (ks : list B) (x : A) :
  In (key x) (map keyOf ks) -> keyAmong key keyOf ks x = true.
Proof.
  intros Hin. apply in_map_iff in Hin. destruct Hin as [b [Heq Hb]].
  unfold keyAmong. apply existsb_exists. exists b. split; [exact Hb|].
  rewrite Heq. apply String.eqb_refl.
Qed.

(** Joining rows to distinct keys counts every row with one of the keys
    once. *)
Lemma join_length {B : Type} (keyOf : B -> string) (ks : list B) (l : list A) :
  NoDup (map keyOf ks) ->
  List.length (flat_map (fun b => filter (fun x => String.eqb (key x) (keyOf b)) l) ks)
  = List.length (filter (keyAmong key keyOf ks) l).
Proof.
  induction ks as [|b rest IH]; intros Hnodup.
  - cbn. induction l as [|x l' IHl]; [reflexivity | exact IHl].
  - cbn [map] in Hnodup. inversion Hnodup as [|? ? Hnotin Hrest]; subst.
    cbn [flat_map]. rewrite length_app, IH by exact Hrest.
    symmetry. apply (filter_or_length (fun x => String.eqb (key x) (keyOf b)) (keyAmong key keyOf rest)).
    intros x _ Heq. apply String.eqb_eq in Heq.
    apply keyAmong_false. rewrite Heq. exact Hnotin.
Qed.

End Keyed.

Lemma flat_map_length_pointwise {A B C D : Type} (f : A -> list C) (g : B -> list D)
  (la : list A) (lb : list B) :
  Forall2 (fun a b => List.length (f a) = List.length (g b)) la lb ->
  List.length (flat_map f la) = List.length (flat_map g lb).
Proof.
  induction 1 as [|a b la lb Hab _ IH]; [reflexivity|].
  cbn. rewrite !length_app, Hab, IH. reflexivity.
Qed.

Lemma Forall2_length_eq {A B : Type} (R : A -> B -> Prop) (la : list A) (lb : list B) :
  Forall2 R la lb -> List.length la = List.length lb.
Proof. induction 1; cbn; congruence. Qed.

(** ** The identifiers of a store *)

Lemma identifiers_page (st : Store) (p : Page.t) :
  In p (pages st) -> In (Page.id p) (identifiers st).
Proof.
  intros H. unfold identifiers. apply in_or_app. left. apply in_map. exact H.
Qed.

Lemma identifiers_component (st : Store) (c : Component.t) :
  In c (components st) ->
  In (Component.id c) (identifiers st) /\ In (Component.pageId c) (identifiers st).
Proof.
  intros H. unfold identifiers. split.
  - apply in_or_app. right. apply in_or_app. left. apply in_map. exact H.
  - do 2 (apply in_or_app; right). apply in_or_app. left. apply in_map. exact H.
Qed.

Lemma identifiers_layout (st : Store) (l : Layout.t) :
  In l (layouts st) -> In (Layout.componentId l) (identifiers st).
Proof.
  intros H. unfold identifiers.
  do 5 (apply in_or_app; right). apply in_or_app. left. apply in_map. exact H.
Qed.

Lemma identifiers_eventHandler (st : Store) (e : EventHandler.t) :
  In e (eventHandlers st) -> In (EventHandler.sourceId e) (identifiers st).
Proof.
  intros H. unfold identifiers.
  do 7 (apply in_or_app; right). apply in_or_app. left. apply in_map. exact H.
Qed.

Lemma extends_identifiers (st st' : Store) :
  extends st st' -> incl (identifiers st) (identifiers st').
Proof.
  intros [[ps Hp] [[cs Hc] [[ls Hl] [es He]]]] x.
  unfold identifiers. rewrite Hp, Hc, Hl, He.
  rewrite !flat_map_app, !map_app, !in_app_iff. tauto.
Qed.

Lemma extends_refl (st : Store) : extends st st.
Proof. repeat split; exists []; symmetry; apply app_nil_r. Qed.

Lemma extends_components (st : Store) (rows : list Component.t) :
  extends st (withComponents (components st ++ rows) st).
Proof.
  repeat split; cbn; [exists [] | exists rows | exists [] | exists []];
    rewrite ?app_nil_r; reflexivity.
Qed.

(** ** Running the clone *)

Section CloneRuns.

Context {ids : IdGenerator}.

Lemma saveLayouts_run (entities : list (string -> Layout.t)) (st : Store) :
  exists rows,
    mapM saveLayout entities st = (Returned rows, withLayouts (layouts st ++ rows) st)
    /\ Forall2 (fun entity row => exists i, row = entity i) entities rows.
Proof.
  revert st. induction entities as [|entity rest IH]; intros st.
  - exists []. split; [|constructor].
    cbn. unfold ret, withLayouts. rewrite app_nil_r. destruct st; reflexivity.
  - set (row := entity (generate (identifiers st))).
    destruct (IH (withLayouts (layouts st ++ [row]) st)) as [rows [Hrun Hrows]].
    exists (row :: rows). split.
    + cbn [mapM]. erewrite bind_returned by reflexivity.
      erewrite bind_returned by exact Hrun.
      unfold ret, withLayouts. cbn. rewrite <- app_assoc. reflexivity.
    + constructor; [exists (generate (identifiers st)); reflexivity | exact Hrows].
Qed.

Lemma saveEventHandlers_run (entities : list (string -> EventHandler.t)) (st : Store) :
  exists rows,
    mapM saveEventHandler entities st
    = (Returned rows, withEventHandlers (eventHandlers st ++ rows) st)
    /\ Forall2 (fun entity row => exists i, row = entity i) entities rows.
Proof.
  revert st. induction entities as [|entity rest IH]; intros st.
  - exists []. split; [|constructor].
    cbn. unfold ret, withEventHandlers. rewrite app_nil_r. destruct st; reflexivity.
  - set (row := entity (generate (identifiers st))).
    destruct (IH (withEventHandlers (eventHandlers st ++ [row]) st)) as [rows [Hrun Hrows]].
    exists (row :: rows). split.
    + cbn [mapM]. erewrite bind_returned by reflexivity.
      erewrite bind_returned by exact Hrun.
      unfold ret, withEventHandlers. cbn. rewrite <- app_assoc. reflexivity.
    + constructor; [exists (generate (identifiers st)); reflexivity | exact Hrows].
Qed.

Lemma mapM_map {A B C : Type} (f : A -> B) (g : B -> M C) (l : list A) :
  mapM (fun x => g (f x)) l = mapM g (map f l).
Proof.
  induction l as [|x rest IH]; [reflexivity|].
  cbn [mapM map]. rewrite IH. reflexivity.
Qed.

Lemma insertClones_run (clonePageId : string) (pageComponents : list Component.t)
  (componentsIdMap : IdMap.t) (st : Store) :
  exists pairs,
    insertClones clonePageId pageComponents componentsIdMap st
    = (Returned (pairs, recorded pairs componentsIdMap),
       withComponents (components st ++ map snd pairs) st)
    /\ map fst pairs = pageComponents
    /\ Forall (fun pair =>
                 componentCloneOf clonePageId (fst pair) (snd pair)
                 /\ ~ In (Component.id (snd pair)) (identifiers st)
                 /\ Component.id (snd pair) <> "") pairs
    /\ NoDup (map (fun pair => Component.id (snd pair)) pairs).
Proof.
  revert componentsIdMap st.
  induction pageComponents as [|component rest IH]; intros componentsIdMap st.
  - exists []. repeat split; try constructor.
    cbn. unfold ret, withComponents. rewrite app_nil_r. destruct st; reflexivity.
  - set (newComponent :=
           Component.withId (generate (identifiers st))
                            (Component.withPageId clonePageId component)).
    set (st1 := withComponents (components st ++ [newComponent]) st).
    destruct (IH (IdMap.set componentsIdMap (Component.id component) (Component.id newComponent))
                 st1) as [pairs [Hrun [Hfst [Hall Hnodup]]]].
    assert (Hincl : incl (identifiers st) (identifiers st1))
      by (apply extends_identifiers, extends_components).
    exists ((component, newComponent) :: pairs). repeat split.
    + cbn [insertClones]. erewrite bind_returned by reflexivity.
      erewrite bind_returned by exact Hrun.
      unfold ret, st1, withComponents. cbn. rewrite <- app_assoc. reflexivity.
    + cbn. rewrite Hfst. reflexivity.
    + constructor.
      * cbn. repeat split.
        -- apply generate_new.
        -- apply generate_nonempty.
      * eapply Forall_impl; [|exact Hall].
        intros pair [Hclone [Hnew Hnonempty]]. repeat split; try assumption.
        intros Hin. apply Hnew. apply Hincl. exact Hin.
    + cbn [map]. constructor; [|exact Hnodup].
      intros Hin. apply in_map_iff in Hin. destruct Hin as [pair [Heq Hpair]].
      rewrite Forall_forall in Hall. destruct (Hall pair Hpair) as [_ [Hnew _]].
      apply Hnew. rewrite Heq.
      apply (identifiers_component st1). unfold st1. cbn.
      apply in_or_app. right. left. reflexivity.
Qed.

Lemma layoutClone_componentId (componentId : string) (originals clones : list Layout.t) :
  Forall2 (layoutCloneOf componentId) originals clones ->
  forall l, In l clones -> Layout.componentId l = componentId.
Proof.
  induction 1 as [|o c os cs Hc _ IH]; intros l Hin; [contradiction|].
  destruct Hin as [<- | Hin]; [|apply IH; exact Hin].
  rewrite Hc. reflexivity.
Qed.

Lemma eventClone_sourceId (componentsIdMap : IdMap.t) (sourceId : string)
  (originals clones : list EventHandler.t) :
  Forall2 (eventCloneOf componentsIdMap sourceId) originals clones ->
  forall e, In e clones -> EventHandler.sourceId e = sourceId.
Proof.
  induction 1 as [|o c os cs Hc _ IH]; intros e Hin; [contradiction|].
  destruct Hin as [<- | Hin]; [|apply IH; exact Hin].
  rewrite Hc. reflexivity.
Qed.

Lemma cloneLayoutsAndEvents_run (componentsIdMap : IdMap.t)
  (pair : Component.t * Component.t) (st : Store) :
  exists L E,
    cloneLayoutsAndEvents componentsIdMap pair st
    = (Returned (snd pair),
       withEventHandlers (eventHandlers st ++ E) (withLayouts (layouts st ++ L) st))
    /\ Forall2 (layoutCloneOf (Component.id (snd pair)))
               (filter (fun l => String.eqb (Layout.componentId l) (Component.id (fst pair)))
                       (layouts st)) L
    /\ Forall2 (eventCloneOf componentsIdMap (Component.id (snd pair)))
               (filter (fun e => String.eqb (EventHandler.sourceId e) (Component.id (fst pair)))
                       (eventHandlers st)) E.
Proof.
  unfold cloneLayoutsAndEvents.
  set (ls := filter (fun l => String.eqb (Layout.componentId l) (Component.id (fst pair)))
                    (layouts st)).
  set (es := filter (fun e => String.eqb (EventHandler.sourceId e) (Component.id (fst pair)))
                    (eventHandlers st)).
  set (clonedLayouts :=
         map (fun layout id =>
                Layout.withId id (Layout.withComponentId (Component.id (snd pair)) layout)) ls).
  set (clonedEvents :=
         map (fun event id =>
                EventHandler.withId id
                  (EventHandler.withSourceId (Component.id (snd pair))
                     (remapEvent componentsIdMap event))) es).
  destruct (saveLayouts_run clonedLayouts st) as [L [HL HLrows]].
  destruct (saveEventHandlers_run clonedEvents (withLayouts (layouts st ++ L) st))
    as [E [HE HErows]].
  exists L, E. split; [|split].
  - erewrite bind_returned by reflexivity.
    erewrite bind_returned by reflexivity.
    erewrite bind_returned by exact HL.
    erewrite bind_returned by exact HE.
    reflexivity.
  - clear HL HE HErows. unfold clonedLayouts in HLrows. clearbody ls.
    revert L HLrows. induction ls as [|l rest IH]; intros L HLrows;
      inversion HLrows as [|? row ? rows [i Hrow] Hrest]; subst; constructor.
    + reflexivity.
    + apply IH. exact Hrest.
  - clear HL HE HLrows. unfold clonedEvents in HErows. clearbody es.
    revert E HErows. induction es as [|e rest IH]; intros E HErows;
      inversion HErows as [|? row ? rows [i Hrow] Hrest]; subst; constructor.
    + reflexivity.
    + apply IH. exact Hrest.
Qed.

Lemma cloneAll_run (componentsIdMap : IdMap.t) (pairs : list (Component.t * Component.t))
  (st : Store) (L0 Lx : list Layout.t) (E0 Ex : list EventHandler.t) :
  layouts st = L0 ++ Lx ->
  eventHandlers st = E0 ++ Ex ->
  (forall l pair, In l Lx -> In pair pairs -> Layout.componentId l <> Component.id (fst pair)) ->
  (forall e pair, In e Ex -> In pair pairs -> EventHandler.sourceId e <> Component.id (fst pair)) ->
  (forall pair pair', In pair pairs -> In pair' pairs ->
                      Component.id (snd pair) <> Component.id (fst pair')) ->
  exists LL EE,
    mapM (cloneLayoutsAndEvents componentsIdMap) pairs st
    = (Returned (map snd pairs),
       withEventHandlers (eventHandlers st ++ List.concat EE)
                         (withLayouts (layouts st ++ List.concat LL) st))
    /\ Forall2 (fun pair L =>
                  Forall2 (layoutCloneOf (Component.id (snd pair)))
                          (filter (fun l => String.eqb (Layout.componentId l)
                                                       (Component.id (fst pair))) L0) L)
               pairs LL
    /\ Forall2 (fun pair E =>
                  Forall2 (eventCloneOf componentsIdMap (Component.id (snd pair)))
                          (filter (fun e => String.eqb (EventHandler.sourceId e)
                                                       (Component.id (fst pair))) E0) E)
               pairs EE.
Proof.
  revert st Lx Ex. induction pairs as [|pair rest IH]; intros st Lx Ex HL HE HLx HEx Hnew.
  - exists [], []. split; [|split; constructor].
    cbn. unfold ret, withEventHandlers, withLayouts. cbn. rewrite !app_nil_r.
    destruct st; reflexivity.
  - destruct (cloneLayoutsAndEvents_run componentsIdMap pair st) as [L [E [Hrun [HLc HEc]]]].
    set (st1 := withEventHandlers (eventHandlers st ++ E) (withLayouts (layouts st ++ L) st))
      in *.
    destruct (IH st1 (Lx ++ L) (Ex ++ E)) as [LL [EE [Hrest [HLL HEE]]]].
    + unfold st1. cbn. rewrite HL, app_assoc. reflexivity.
    + unfold st1. cbn. rewrite HE, app_assoc. reflexivity.
    + intros l pair' Hl Hpair'. apply in_app_or in Hl. destruct Hl as [Hl | Hl].
      * apply HLx; [exact Hl | right; exact Hpair'].
      * rewrite (layoutClone_componentId _ _ _ HLc l Hl).
        apply Hnew; [left; reflexivity | right; exact Hpair'].
    + intros e pair' He Hpair'. apply in_app_or in He. destruct He as [He | He].
      * apply HEx; [exact He | right; exact Hpair'].
      * rewrite (eventClone_sourceId _ _ _ _ HEc e He).
        apply Hnew; [left; reflexivity | right; exact Hpair'].
    + intros p1 p2 H1 H2. apply Hnew; right; assumption.
    + exists (L :: LL), (E :: EE). split; [|split].
      * cbn [mapM]. erewrite bind_returned by exact Hrun.
        erewrite bind_returned by exact Hrest.
        unfold ret, st1, withEventHandlers, withLayouts. cbn. rewrite <- !app_assoc. reflexivity.
      * constructor; [|exact HLL].
        rewrite HL, filter_app in HLc.
        rewrite (keyed_filter_none Layout.componentId _ Lx) in HLc.
        -- rewrite app_nil_r in HLc. exact HLc.
        -- intros l Hl. apply HLx; [exact Hl | left; reflexivity].
      * constructor; [|exact HEE].
        rewrite HE, filter_app in HEc.
        rewrite (keyed_filter_none EventHandler.sourceId _ Ex) in HEc.
        -- rewrite app_nil_r in HEc. exact HEc.
        -- intros e He. apply HEx; [exact He | left; reflexivity].
Qed.

Lemma find_component_none (k : string) (l : list Component.t) :
  ~ In k (map Component.id l) -> find (fun x => String.eqb (Component.id x) k) l = None.
Proof.
  induction l as [|x rest IH]; intros Hnotin; [reflexivity|].
  cbn. destruct (String.eqb_spec (Component.id x) k) as [Heq|_].
  - exfalso. apply Hnotin. left. exact Heq.
  - apply IH. intros Hin. apply Hnotin. right. exact Hin.
Qed.

Lemma find_component_self (l : list Component.t) (x : Component.t) :
  NoDup (map Component.id l) -> In x l ->
  find (fun y => String.eqb (Component.id y) (Component.id x)) l = Some x.
Proof.
  induction l as [|y rest IH]; intros Hnodup Hin; [contradiction|].
  cbn in Hnodup. inversion Hnodup as [|? ? Hnotin Hrest]; subst.
  cbn. destruct Hin as [-> | Hin].
  - rewrite String.eqb_refl. reflexivity.
  - destruct (String.eqb_spec (Component.id y) (Component.id x)) as [Heq|_].
    + exfalso. apply Hnotin. rewrite Heq. apply in_map. exact Hin.
    + apply IH; assumption.
Qed.

Lemma remapParents_run (componentsIdMap : IdMap.t) (clones : list Component.t) (st : Store) :
  NoDup (map Component.id clones) ->
  mapM (remapParent componentsIdMap) clones st
  = (Returned (map (fun _ => tt) clones),
     withComponents (map (rowAfter componentsIdMap clones) (components st)) st).
Proof.
  revert st. induction clones as [|x rest IH]; intros st Hnodup.
  - cbn. unfold ret, withComponents. f_equal.
    rewrite (map_ext _ (fun r => r)) by reflexivity. rewrite map_id. destruct st; reflexivity.
  - cbn in Hnodup. inversion Hnodup as [|? ? Hnotin Hrest]; subst.
    set (u := fun r : Component.t =>
                if String.eqb (Component.id r) (Component.id x)
                then rowAfter componentsIdMap [x] r else r).
    assert (Hstep : remapParent componentsIdMap x st
                    = (Returned tt, withComponents (map u (components st)) st)).
    { unfold remapParent, u, rowAfter. cbn [find].
      destruct (IdMap.truthy _) as [componentId|] eqn:Htruthy.
      - erewrite bind_returned by reflexivity. unfold ret. f_equal. f_equal.
        apply map_ext. intros r. rewrite (String.eqb_sym (Component.id x)).
        destruct (String.eqb (Component.id r) (Component.id x)); [|reflexivity].
        rewrite Htruthy. reflexivity.
      - unfold ret, withComponents. f_equal.
        rewrite (map_ext _ (fun r => r)).
        + rewrite map_id. destruct st; reflexivity.
        + intros r. destruct (String.eqb (Component.id r) (Component.id x)); [|reflexivity].
          destruct (String.eqb (Component.id x) (Component.id r)); [|reflexivity].
          rewrite Htruthy. reflexivity. }
    cbn [mapM]. erewrite bind_returned by exact Hstep.
    erewrite bind_returned by (apply IH; exact Hrest).
    unfold ret, withComponents. cbn. do 2 f_equal.
    rewrite map_map. apply map_ext. intros r. unfold u.
    unfold rowAfter at 3. cbn [find]. rewrite (String.eqb_sym (Component.id x)).
    destruct (String.eqb_spec (Component.id r) (Component.id x)) as [Heq|Hne].
    + assert (Hid : Component.id (rowAfter componentsIdMap [x] r) = Component.id r).
      { unfold rowAfter. cbn [find]. destruct (String.eqb _ _); [|reflexivity].
        destruct (IdMap.truthy _); reflexivity. }
      unfold rowAfter at 1. rewrite Hid, Heq.
      rewrite find_component_none by exact Hnotin.
      unfold rowAfter. cbn [find]. rewrite Heq, String.eqb_refl. reflexivity.
    + reflexivity.
Qed.

(** Over a table that ends with the clones, the last loop leaves the
    rows before them as they are. *)
Lemma rowAfter_table (componentsIdMap : IdMap.t) (old clones : list Component.t) :
  NoDup (map Component.id clones) ->
  (forall r, In r old -> ~ In (Component.id r) (map Component.id clones)) ->
  map (rowAfter componentsIdMap clones) (old ++ clones)
  = old ++ map (reparented componentsIdMap) clones.
Proof.
  intros Hnodup Hold. rewrite map_app. f_equal.
  - rewrite (map_ext_in _ (fun r => r)); [apply map_id|].
    intros r Hr. unfold rowAfter. rewrite find_component_none by (apply Hold; exact Hr).
    reflexivity.
  - apply map_ext_in. intros n Hn. unfold rowAfter.
    rewrite find_component_self by assumption. reflexivity.
Qed.

Lemma saved_event_clones (componentsIdMap : IdMap.t) (sourceId : string)
  (events rows : list EventHandler.t) :
  Forall2 (fun entity row => exists i, row = entity i)
          (map (fun event id =>
                  EventHandler.withId id
                    (EventHandler.withSourceId sourceId (remapEvent componentsIdMap event)))
               events)
          rows ->
  Forall2 (eventCloneOf componentsIdMap sourceId) events rows.
Proof.
  revert rows. induction events as [|e rest IH]; intros rows Hrows;
    inversion Hrows as [|? row ? rows' [i Hrow] Hrest]; subst; constructor.
  - reflexivity.
  - apply IH. exact Hrest.
Qed.

Lemma clonePageEventsAndComponents_run (pageId clonePageId : string) (st : Store) :
  In clonePageId (identifiers st) ->
  (forall c, In c (components st) -> Component.id c <> clonePageId) ->
  exists pairs PE LL EE,
    clonePageEventsAndComponents pageId clonePageId st
    = (Returned tt, cloneStore st [] pairs PE LL EE)
    /\ cloneShape st pageId clonePageId pairs PE LL EE.
Proof.
  intros Hknown Hcomponents.
  unfold clonePageEventsAndComponents, dbTransactionWrap.
  erewrite bind_returned by reflexivity. cbv beta.
  erewrite bind_returned by reflexivity. cbv beta zeta.
  rewrite mapM_map.
  match goal with
  | |- context [mapM saveEventHandler ?entities] =>
      destruct (saveEventHandlers_run entities st) as [PE [HPE HPErows]]
  end.
  erewrite bind_returned by exact HPE. cbv beta.
  set (st2 := withEventHandlers (eventHandlers st ++ PE) st) in *.
  destruct (insertClones_run clonePageId (componentsOf st pageId) IdMap.empty st2)
    as [pairs [Hinsert [Hfst [Hpairs Hnodup]]]].
  erewrite bind_returned by exact Hinsert. cbv beta zeta. cbn [fst snd].
  set (st3 := withComponents (components st2 ++ map snd pairs) st2) in *.
  assert (Hincl : incl (identifiers st) (identifiers st2)).
  { apply extends_identifiers. repeat split; cbn;
      [exists [] | exists [] | exists [] | exists PE]; rewrite ?app_nil_r; reflexivity. }
  assert (HPEclones : Forall2 (eventCloneOf IdMap.empty clonePageId) (eventsOf st pageId) PE).
  { apply saved_event_clones. exact HPErows. }
  rewrite Forall_forall in Hpairs.
  assert (Holds : forall pair, In pair pairs -> In (fst pair) (components st)).
  { intros pair Hpair.
    assert (Hin : In (fst pair) (componentsOf st pageId))
      by (rewrite <- Hfst; apply in_map; exact Hpair).
    apply filter_In in Hin. apply Hin. }
  destruct (cloneAll_run (recorded pairs IdMap.empty) pairs st3
                         (layouts st) [] (eventHandlers st) PE)
    as [LL [EE [Hclone [HLL HEE]]]].
  - cbn. rewrite app_nil_r. reflexivity.
  - reflexivity.
  - intros l pair [].
  - intros e pair He Hpair.
    rewrite (eventClone_sourceId _ _ _ _ HPEclones e He).
    intros Heq. apply (Hcomponents (fst pair)); [apply Holds; exact Hpair | congruence].
  - intros pair pair' Hpair Hpair' Heq.
    destruct (Hpairs pair Hpair) as [_ [Hnew _]]. apply Hnew.
    apply Hincl. rewrite Heq. apply identifiers_component. apply Holds. exact Hpair'.
  - erewrite bind_returned by exact Hclone. cbv beta.
    assert (Hids : map Component.id (map snd pairs)
                   = map (fun pair => Component.id (snd pair)) pairs) by apply map_map.
    erewrite bind_returned
      by (apply remapParents_run; rewrite Hids; exact Hnodup).
    exists pairs, PE, LL, EE. split.
    + unfold ret, cloneStore, withComponents, withEventHandlers, withLayouts. cbn.
      rewrite rowAfter_table.
      * rewrite map_map, !app_nil_r, <- !app_assoc. reflexivity.
      * rewrite Hids. exact Hnodup.
      * intros r Hr Hin. rewrite Hids in Hin. apply in_map_iff in Hin.
        destruct Hin as [pair [Heq Hpair]].
        destruct (Hpairs pair Hpair) as [_ [Hnew _]]. apply Hnew.
        apply Hincl. rewrite Heq. apply identifiers_component. exact Hr.
    + unfold cloneShape. repeat split; try assumption.
      apply Forall_forall. intros pair Hpair.
      destruct (Hpairs pair Hpair) as [Hclone' [Hnew Hnonempty]].
      repeat split; try assumption.
      * intros Hin. apply Hnew. apply Hincl. exact Hin.
      * intros Heq. apply Hnew. apply Hincl. rewrite Heq. exact Hknown.
Qed.

Lemma findPagesForVersion_run (appVersionId : string) (st : Store) :
  exists listing, findPagesForVersion appVersionId st = (Returned listing, st).
Proof.
  unfold findPagesForVersion.
  erewrite bind_returned by reflexivity. cbv beta.
  induction (filter _ (pages st)) as [|page rest [listing IH]].
  - eexists. reflexivity.
  - eexists. cbn [mapM].
    erewrite bind_returned by reflexivity.
    erewrite bind_returned by exact IH. reflexivity.
Qed.

Lemma clonePage_run (pageId appVersionId : string) (p : Page.t) (st : Store) :
  find (hasId pageId) (pages st) = Some p ->
  exists newPage pairs PE LL EE answer,
    clonePage pageId appVersionId st
    = (Returned answer, cloneStore st [newPage] pairs PE LL EE)
    /\ newPage
       = Page.mk (generate (identifiers st))
                 (if (0 <? collisions st appVersionId p)%nat
                  then (Page.name p ++ " (copy " ++ decimal (collisions st appVersionId p) ++ ")")%string
                  else (Page.name p ++ " (copy)")%string)
                 (if (0 <? collisions st appVersionId p)%nat
                  then (Page.handle p ++ "-copy-" ++ decimal (collisions st appVersionId p))%string
                  else (Page.handle p ++ "-copy")%string)
                 (Page.index p + 1)%Z appVersionId
    /\ cloneShape st pageId (Page.id newPage) pairs PE LL EE.
Proof.
  intros Hfind.
  unfold clonePage, dbTransactionForAppVersionAssociationsUpdate.
  erewrite bind_returned by reflexivity. cbv beta. rewrite Hfind.
  erewrite bind_returned by reflexivity. cbv beta zeta.
  fold (pagesOfVersion st appVersionId). fold (collisions st appVersionId p).
  erewrite bind_returned by reflexivity. cbv beta.
  match goal with
  | |- context [clonePageEventsAndComponents pageId (Page.id ?page)] => set (newPage := page)
  end.
  set (st1 := withPages (pages st ++ [newPage]) st).
  assert (Hincl : incl (identifiers st) (identifiers st1)).
  { apply extends_identifiers. repeat split; cbn;
      [exists [newPage] | exists [] | exists [] | exists []]; rewrite ?app_nil_r; reflexivity. }
  destruct (clonePageEventsAndComponents_run pageId (Page.id newPage) st1)
    as [pairs [PE [LL [EE [Hrun Hshape]]]]].
  - apply identifiers_page. unfold st1. cbn. apply in_or_app. right. left. reflexivity.
  - intros c Hc Heq. apply (generate_new (identifiers st)).
    change (generate (identifiers st)) with (Page.id newPage). rewrite <- Heq.
    apply identifiers_component. exact Hc.
  - erewrite bind_returned by exact Hrun. cbv beta.
    destruct (findPagesForVersion_run appVersionId (cloneStore st1 [] pairs PE LL EE))
      as [listing Hlisting].
    erewrite bind_returned by exact Hlisting. cbv beta.
    erewrite bind_returned by reflexivity. cbv beta.
    exists newPage, pairs, PE, LL, EE. eexists. split; [|split].
    + unfold ret, cloneStore, st1. cbn. rewrite app_nil_r. reflexivity.
    + reflexivity.
    + destruct Hshape as [HPE [Hfst [Hpairs [Hnodup [HLL HEE]]]]].
      unfold cloneShape. repeat split; try assumption.
      eapply Forall_impl; [|exact Hpairs].
      intros pair [Hclone [Hnew [Hnonempty Hnotpage]]].
      repeat split; try assumption.
      intros Hin. apply Hnew. apply Hincl. exact Hin.
Qed.

End CloneRuns.

(** ** Clone: the new page *)

Lemma cloneStore_extends (st : Store) (newPages : list Page.t)
  (pairs : list (Component.t * Component.t)) (PE : list EventHandler.t)
  (LL : list (list Layout.t)) (EE : list (list EventHandler.t)) :
  extends st (cloneStore st newPages pairs PE LL EE).
Proof.
  unfold extends, cloneStore. cbn. repeat split; eexists; reflexivity.
Qed.

Section CloneClaims.

Context {ids : IdGenerator}.

(** C9. [clonePage] inserts the copy at the index of the source page
    plus one; the rows of the page table before the clone are its rows
    after, followed by the copy: no other index is written. *)
Theorem clonePage_index_is_source_plus_one
  (pageId appVersionId : string) (p : Page.t) (st : Store) :
  find (hasId pageId) (pages st) = Some p ->
  exists newPage answer st',
    clonePage pageId appVersionId st = (Returned answer, st')
    /\ pages st' = pages st ++ [newPage]
    /\ Page.index newPage = (Page.index p + 1)%Z.
Proof.
  intros Hfind.
  destruct (clonePage_run pageId appVersionId p st Hfind)
    as [newPage [pairs [PE [LL [EE [answer [Hrun [Hpage _]]]]]]]].
  exists newPage, answer, (cloneStore st [newPage] pairs PE LL EE).
  split; [exact Hrun|]. split; [reflexivity|].
  rewrite Hpage. reflexivity.
Qed.

(** C10. [clonePage] writes no row that was in the store: every table
    after the clone begins with the table before it, row by row, the
    source page, its components, their layouts and the event handlers
    included.  What the clone inserts and what its last loop updates
    comes after. *)
Theorem clonePage_keeps_existing_rows
  (pageId appVersionId : string) (p : Page.t) (st : Store) :
  find (hasId pageId) (pages st) = Some p ->
  exists answer st',
    clonePage pageId appVersionId st = (Returned answer, st')
    /\ extends st st'
    /\ appVersions st' = appVersions st.
Proof.
  intros Hfind.
  destruct (clonePage_run pageId appVersionId p st Hfind)
    as [newPage [pairs [PE [LL [EE [answer [Hrun _]]]]]]].
  exists answer, (cloneStore st [newPage] pairs PE LL EE).
  split; [exact Hrun|]. split; [apply cloneStore_extends | reflexivity].
Qed.


End CloneClaims.

(** ** Clone: names and counts *)

Lemma append_length (s t : string) :
  String.length (s ++ t)%string = String.length s + String.length t.
Proof. induction s as [|a s IH]; cbn; [reflexivity | rewrite IH; reflexivity]. Qed.

Lemma append_differs (s t : string) : (0 < String.length t)%nat -> (s ++ t)%string <> s.
Proof.
  intros Hlen Heq. apply (f_equal String.length) in Heq.
  rewrite append_length in Heq. lia.
Qed.

Lemma filter_nothing {A : Type} (f : A -> bool) (l : list A) :
  (forall x, In x l -> f x = false) -> filter f l = [].
Proof.
  induction l as [|x rest IH]; intros Hnone; [reflexivity|].
  cbn. rewrite (Hnone x (or_introl eq_refl)). apply IH.
  intros y Hy. apply Hnone. right. exact Hy.
Qed.

Lemma concat_pairs_length {X Y : Type} (F : Component.t -> list X)
  (R : Component.t * Component.t -> X -> Y -> Prop)
  (pairs : list (Component.t * Component.t)) (YY : list (list Y)) :
  Forall2 (fun pair L => Forall2 (R pair) (F (fst pair)) L) pairs YY ->
  List.length (List.concat YY) = List.length (flat_map F (map fst pairs)).
Proof.
  induction 1 as [|pair L pairs' YY' HL _ IH]; [reflexivity|].
  cbn. rewrite !length_app, IH. f_equal. symmetry. exact (Forall2_length_eq _ _ _ HL).
Qed.

Lemma concat_pairs_keys {X Y : Type} (key : Y -> string) (F : Component.t -> list X)
  (R : Component.t * Component.t -> X -> Y -> Prop)
  (pairs : list (Component.t * Component.t)) (YY : list (list Y)) :
  (forall pair xs ys, Forall2 (R pair) xs ys ->
                      forall y, In y ys -> key y = Component.id (snd pair)) ->
  Forall2 (fun pair L => Forall2 (R pair) (F (fst pair)) L) pairs YY ->
  forall y, In y (List.concat YY) ->
            In (key y) (map (fun pair => Component.id (snd pair)) pairs).
Proof.
  intros Hkey. induction 1 as [|pair L pairs' YY' HL _ IH]; intros y Hy; [contradiction|].
  cbn in Hy. apply in_app_or in Hy. destruct Hy as [Hy | Hy].
  - left. symmetry. exact (Hkey pair _ _ HL y Hy).
  - right. apply IH. exact Hy.
Qed.

Lemma reparented_id (componentsIdMap : IdMap.t) (c : Component.t) :
  Component.id (reparented componentsIdMap c) = Component.id c.
Proof. unfold reparented. destruct (IdMap.truthy _); reflexivity. Qed.

Lemma reparented_pageId (componentsIdMap : IdMap.t) (c : Component.t) :
  Component.pageId (reparented componentsIdMap c) = Component.pageId c.
Proof. unfold reparented. destruct (IdMap.truthy _); reflexivity. Qed.

(** The components of the new page are the clones; they carry distinct
    ids that the store did not hold. *)
Lemma cloneStore_components (st : Store) (pageId : string) (newPage : Page.t)
  (pairs : list (Component.t * Component.t)) (PE : list EventHandler.t)
  (LL : list (list Layout.t)) (EE : list (list EventHandler.t)) :
  ~ In (Page.id newPage) (identifiers st) ->
  cloneShape st pageId (Page.id newPage) pairs PE LL EE ->
  componentsOf (cloneStore st [newPage] pairs PE LL EE) (Page.id newPage)
  = map (fun pair => reparented (recorded pairs IdMap.empty) (snd pair)) pairs.
Proof.
  intros Hnew [_ [_ [Hpairs _]]].
  unfold componentsOf, cloneStore. cbn [components]. rewrite filter_app.
  rewrite (keyed_filter_none Component.pageId).
  - cbn [app]. apply (keyed_filter_every Component.pageId).
    intros c Hc. apply in_map_iff in Hc. destruct Hc as [pair [<- Hpair]].
    rewrite Forall_forall in Hpairs. destruct (Hpairs pair Hpair) as [Hclone _].
    rewrite reparented_pageId, Hclone. reflexivity.
  - intros c Hc Heq. apply Hnew. rewrite <- Heq. apply identifiers_component. exact Hc.
Qed.

Lemma clone_ids (componentsIdMap : IdMap.t) (pairs : list (Component.t * Component.t)) :
  map Component.id (map (fun pair => reparented componentsIdMap (snd pair)) pairs)
  = map (fun pair => Component.id (snd pair)) pairs.
Proof.
  rewrite map_map. apply map_ext. intros pair. apply reparented_id.
Qed.

Lemma clone_layoutCount (st : Store) (pageId : string) (newPage : Page.t)
  (pairs : list (Component.t * Component.t)) (PE : list EventHandler.t)
  (LL : list (list Layout.t)) (EE : list (list EventHandler.t)) :
  ~ In (Page.id newPage) (identifiers st) ->
  cloneShape st pageId (Page.id newPage) pairs PE LL EE ->
  layoutCount (cloneStore st [newPage] pairs PE LL EE) (Page.id newPage)
  = layoutCount st pageId.
Proof.
  intros Hnew Hshape. unfold layoutCount.
  rewrite (cloneStore_components st pageId) by assumption.
  destruct Hshape as [_ [Hfst [Hpairs [Hnodup [HLL _]]]]].
  rewrite Forall_forall in Hpairs.
  unfold layoutsOf at 1. cbn [layouts cloneStore].
  rewrite (join_length Layout.componentId Component.id)
    by (rewrite clone_ids; exact Hnodup).
  rewrite filter_app, length_app.
  rewrite filter_nothing, filter_all.
  - cbn [List.length Nat.add].
    rewrite (concat_pairs_length (fun c => layoutsOf st (Component.id c))
               (fun pair => layoutCloneOf (Component.id (snd pair))) _ _ HLL).
    rewrite Hfst. reflexivity.
  - intros l Hl. apply keyAmong_true. rewrite clone_ids.
    apply (concat_pairs_keys Layout.componentId
             (fun c => layoutsOf st (Component.id c))
             (fun pair => layoutCloneOf (Component.id (snd pair))) pairs LL);
      [|exact HLL | exact Hl].
    intros pair xs ys Hclones y Hy. exact (layoutClone_componentId _ _ _ Hclones y Hy).
  - intros l Hl. apply keyAmong_false. rewrite clone_ids. intros Hin.
    apply in_map_iff in Hin. destruct Hin as [pair [Heq Hpair]].
    destruct (Hpairs pair Hpair) as [_ [Hfresh _]]. apply Hfresh.
    rewrite Heq. apply identifiers_layout. exact Hl.
Qed.

Lemma clone_eventCount (st : Store) (pageId : string) (newPage : Page.t)
  (pairs : list (Component.t * Component.t)) (PE : list EventHandler.t)
  (LL : list (list Layout.t)) (EE : list (list EventHandler.t)) :
  ~ In (Page.id newPage) (identifiers st) ->
  cloneShape st pageId (Page.id newPage) pairs PE LL EE ->
  eventCount (cloneStore st [newPage] pairs PE LL EE) (Page.id newPage)
  = eventCount st pageId.
Proof.
  intros Hnew Hshape. unfold eventCount.
  rewrite (cloneStore_components st pageId) by assumption.
  destruct Hshape as [HPE [Hfst [Hpairs [Hnodup [_ HEE]]]]].
  rewrite Forall_forall in Hpairs.
  assert (Hkeys : forall e, In e (List.concat EE) ->
                            In (EventHandler.sourceId e)
                               (map (fun pair => Component.id (snd pair)) pairs)).
  { apply (concat_pairs_keys EventHandler.sourceId
             (fun c => eventsOf st (Component.id c))
             (fun pair => eventCloneOf (recorded pairs IdMap.empty) (Component.id (snd pair)))
             pairs EE); [|exact HEE].
    intros pair xs ys Hclones y Hy. exact (eventClone_sourceId _ _ _ _ Hclones y Hy). }
  f_equal.
  - unfold eventsOf at 1. cbn [eventHandlers cloneStore].
    rewrite !filter_app.
    rewrite (keyed_filter_none EventHandler.sourceId _ (eventHandlers st)).
    + rewrite (keyed_filter_every EventHandler.sourceId _ PE)
        by (apply (eventClone_sourceId _ _ _ _ HPE)).
      rewrite (keyed_filter_none EventHandler.sourceId _ (List.concat EE)).
      * cbn [app]. rewrite app_nil_r. symmetry. exact (Forall2_length_eq _ _ _ HPE).
      * intros e He Heq. apply Hkeys in He. rewrite Heq in He.
        apply in_map_iff in He. destruct He as [pair [Hid Hpair]].
        destruct (Hpairs pair Hpair) as [_ [_ [_ Hnotpage]]]. exact (Hnotpage Hid).
    + intros e He Heq. apply Hnew. rewrite <- Heq. apply identifiers_eventHandler. exact He.
  - unfold eventsOf at 1. cbn [eventHandlers cloneStore].
    rewrite (join_length EventHandler.sourceId Component.id)
      by (rewrite clone_ids; exact Hnodup).
    rewrite !filter_app, !length_app.
    rewrite (filter_nothing _ (eventHandlers st)), (filter_nothing _ PE), filter_all.
    + cbn [List.length Nat.add].
      rewrite (concat_pairs_length (fun c => eventsOf st (Component.id c))
                 (fun pair => eventCloneOf (recorded pairs IdMap.empty)
                                           (Component.id (snd pair))) _ _ HEE).
      rewrite Hfst. reflexivity.
    + intros e He. apply keyAmong_true. rewrite clone_ids. apply Hkeys. exact He.
    + intros e He. apply keyAmong_false. rewrite clone_ids. intros Hin.
      rewrite (eventClone_sourceId _ _ _ _ HPE e He) in Hin.
      apply in_map_iff in Hin. destruct Hin as [pair [Hid Hpair]].
      destruct (Hpairs pair Hpair) as [_ [_ [_ Hnotpage]]]. exact (Hnotpage Hid).
    + intros e He. apply keyAmong_false. rewrite clone_ids. intros Hin.
      apply in_map_iff in Hin. destruct Hin as [pair [Heq Hpair]].
      destruct (Hpairs pair Hpair) as [_ [Hfresh _]]. apply Hfresh.
      rewrite Heq. apply identifiers_eventHandler. exact He.
Qed.

Section CountClaim.

Context {ids : IdGenerator}.

(** C7. [clonePage] on the page [p] yields a new page with another
    name and another handle, with as many components as [p] has, as
    many layout rows and as many event handlers. *)
Theorem clonePage_copy_has_same_counts
  (pageId appVersionId : string) (p : Page.t) (st : Store) :
  find (hasId pageId) (pages st) = Some p ->
  exists newPage answer st',
    clonePage pageId appVersionId st = (Returned answer, st')
    /\ pages st' = pages st ++ [newPage]
    /\ Page.name newPage <> Page.name p
    /\ Page.handle newPage <> Page.handle p
    /\ componentCount st' (Page.id newPage) = componentCount st pageId
    /\ layoutCount st' (Page.id newPage) = layoutCount st pageId
    /\ eventCount st' (Page.id newPage) = eventCount st pageId.
Proof.
  intros Hfind.
  destruct (clonePage_run pageId appVersionId p st Hfind)
    as [newPage [pairs [PE [LL [EE [answer [Hrun [Hpage Hshape]]]]]]]].
  assert (Hnew : ~ In (Page.id newPage) (identifiers st))
    by (rewrite Hpage; apply generate_new).
  exists newPage, answer, (cloneStore st [newPage] pairs PE LL EE).
  split; [exact Hrun|]. split; [reflexivity|].
  split; [|split; [|split; [|split]]].
  - rewrite Hpage. cbn [Page.name].
    destruct (0 <? collisions st appVersionId p)%nat; apply append_differs; cbn; lia.
  - rewrite Hpage. cbn [Page.handle].
    destruct (0 <? collisions st appVersionId p)%nat; apply append_differs; cbn; lia.
  - unfold componentCount. rewrite (cloneStore_components st pageId) by assumption.
    destruct Hshape as [_ [Hfst _]]. rewrite <- Hfst, !length_map. reflexivity.
  - apply clone_layoutCount; assumption.
  - apply clone_eventCount; assumption.
Qed.

End CountClaim.

(** ** Clone: parents *)

Lemma recorded_frame (pairs : list (Component.t * Component.t)) (componentsIdMap : IdMap.t)
  (k : string) :
  ~ In k (map (fun pair => Component.id (fst pair)) pairs) ->
  IdMap.get (recorded pairs componentsIdMap) k = IdMap.get componentsIdMap k.
Proof.
  revert componentsIdMap. induction pairs as [|pair rest IH]; intros componentsIdMap Hnotin.
  - reflexivity.
  - cbn [recorded fold_left]. fold (recorded rest).
    unfold recorded in IH |- *. rewrite IH.
    + cbn. destruct (String.eqb_spec (Component.id (fst pair)) k) as [Heq|_]; [|reflexivity].
      exfalso. apply Hnotin. left. exact Heq.
    + intros Hin. apply Hnotin. right. exact Hin.
Qed.

(** With distinct ids among the components, the table sends the id of
    each to the id of its clone. *)
Lemma recorded_lookup (pairs : list (Component.t * Component.t)) (componentsIdMap : IdMap.t)
  (pair : Component.t * Component.t) :
  NoDup (map (fun pair => Component.id (fst pair)) pairs) ->
  In pair pairs ->
  IdMap.get (recorded pairs componentsIdMap) (Component.id (fst pair))
  = Some (Component.id (snd pair)).
Proof.
  revert componentsIdMap. induction pairs as [|first rest IH];
    intros componentsIdMap Hnodup Hin; [contradiction|].
  cbn [map] in Hnodup. inversion Hnodup as [|? ? Hnotin Hrest]; subst.
  change (recorded (first :: rest) componentsIdMap)
    with (recorded rest (IdMap.set componentsIdMap (Component.id (fst first))
                                   (Component.id (snd first)))).
  destruct Hin as [-> | Hin].
  - rewrite recorded_frame by exact Hnotin. cbn. rewrite String.eqb_refl. reflexivity.
  - apply IH; assumption.
Qed.

Lemma combine_maps {A B C : Type} (f : A -> B) (g : A -> C) (l : list A) :
  combine (map f l) (map g l) = map (fun x => (f x, g x)) l.
Proof. induction l as [|x rest IH]; cbn; [reflexivity | rewrite IH; reflexivity]. Qed.

Section ParentClaim.

Context {ids : IdGenerator}.

(** C8.  Let the components of the page have distinct ids.  After
    [clonePage] the component table is the table before followed by the
    clones of the components of the page, in their order; and when the
    parent of a component [c] is a component [d] of the page, the
    parent of the clone of [c] is the clone of [d], a row the store did
    not hold, never [d]. *)
Theorem clonePage_parent_is_cloned_parent
  (pageId appVersionId : string) (p : Page.t) (st : Store) :
  find (hasId pageId) (pages st) = Some p ->
  NoDup (map Component.id (componentsOf st pageId)) ->
  exists clones answer st',
    clonePage pageId appVersionId st = (Returned answer, st')
    /\ components st' = components st ++ clones
    /\ List.length clones = List.length (componentsOf st pageId)
    /\ forall c c' d d',
         In (c, c') (combine (componentsOf st pageId) clones) ->
         In (d, d') (combine (componentsOf st pageId) clones) ->
         Component.parent c = Some (Component.id d) ->
         Component.parent c' = Some (Component.id d')
         /\ ~ In (Component.id d') (map Component.id (components st)).
Proof.
  intros Hfind Hdistinct.
  destruct (clonePage_run pageId appVersionId p st Hfind)
    as [newPage [pairs [PE [LL [EE [answer [Hrun [_ Hshape]]]]]]]].
  destruct Hshape as [_ [Hfst [Hpairs [_ _]]]].
  rewrite Forall_forall in Hpairs.
  set (table := recorded pairs IdMap.empty).
  exists (map (fun pair => reparented table (snd pair)) pairs), answer,
         (cloneStore st [newPage] pairs PE LL EE).
  split; [exact Hrun|]. split; [reflexivity|].
  split; [rewrite <- Hfst, !length_map; reflexivity|].
  intros c c' d d' Hc Hd Hparent.
  rewrite <- Hfst, combine_maps in Hc, Hd.
  apply in_map_iff in Hc. destruct Hc as [pc [Heqc Hpc]].
  apply in_map_iff in Hd. destruct Hd as [pd [Heqd Hpd]].
  injection Heqc as <- <-. injection Heqd as <- <-.
  destruct (Hpairs pc Hpc) as [Hclone _].
  destruct (Hpairs pd Hpd) as [_ [Hfresh [Hnonempty _]]].
  rewrite reparented_id. split.
  - assert (Hsame : Component.parent (snd pc) = Some (Component.id (fst pd)))
      by (rewrite Hclone; exact Hparent).
    unfold reparented. rewrite Hsame. cbn [IdMap.key].
    unfold table. rewrite recorded_lookup.
    + cbn [IdMap.truthy].
      destruct (String.eqb_spec (Component.id (snd pd)) "") as [Hempty|_];
        [contradiction | reflexivity].
    + rewrite <- (map_map fst Component.id), Hfst. exact Hdistinct.
    + exact Hpd.
  - intros Hin. apply Hfresh. apply in_map_iff in Hin. destruct Hin as [x [Heq Hx]].
    rewrite <- Heq. apply identifiers_component. exact Hx.
Qed.

(** C2 fails on the code for the event handlers of the page itself:
    they are copied before any component is, while [componentsIdMap] is
    empty.  Every event handler of the page with the action
    ["control-component"] is cloned, as a handler of the new page, with
    no component to control: its [componentId] is [undefined], whatever
    component its original controlled. *)
Theorem clonePage_page_event_loses_component
  (pageId appVersionId : string) (p : Page.t) (st : Store)
  (e : EventHandler.t) (d : EventDefinition.t) :
  find (hasId pageId) (pages st) = Some p ->
  In e (eventsOf st pageId) ->
  EventHandler.event e = Some d ->
  EventDefinition.actionId d = "control-component" ->
  exists newPage answer st' e',
    clonePage pageId appVersionId st = (Returned answer, st')
    /\ pages st' = pages st ++ [newPage]
    /\ In e' (eventHandlers st')
    /\ ~ In e' (eventHandlers st)
    /\ EventHandler.sourceId e' = Page.id newPage
    /\ EventHandler.event e' = Some (EventDefinition.withComponentId None d).
Proof.
  intros Hfind He Hevent Haction.
  destruct (clonePage_run pageId appVersionId p st Hfind)
    as [newPage [pairs [PE [LL [EE [answer [Hrun [Hpage Hshape]]]]]]]].
  destruct Hshape as [HPE _].
  assert (Hclone : exists e', In e' PE /\ eventCloneOf IdMap.empty (Page.id newPage) e e').
  { clear Hrun. revert He. induction HPE as [|o c os cs Hoc _ IH]; intros He; [contradiction|].
    destruct He as [-> | He].
    - exists c. split; [left; reflexivity | exact Hoc].
    - destruct (IH He) as [e' [Hin He']]. exists e'. split; [right; exact Hin | exact He']. }
  destruct Hclone as [e' [Hin He']].
  assert (Hsource : EventHandler.sourceId e' = Page.id newPage) by (rewrite He'; reflexivity).
  exists newPage, answer, (cloneStore st [newPage] pairs PE LL EE), e'.
  split; [exact Hrun|]. split; [reflexivity|].
  split; [|split; [|split]].
  - unfold cloneStore. cbn. apply in_or_app. right. apply in_or_app. left. exact Hin.
  - intros Hold. apply (generate_new (identifiers st)).
    replace (generate (identifiers st)) with (EventHandler.sourceId e')
      by (rewrite Hsource, Hpage; reflexivity).
    apply identifiers_eventHandler. exact Hold.
  - exact Hsource.
  - rewrite He'. cbn [EventHandler.event EventHandler.withId EventHandler.withSourceId].
    unfold remapEvent. rewrite Hevent, Haction. reflexivity.
Qed.

Lemma Forall2_In_left {A B : Type} (R : A -> B -> Prop) (la : list A) (lb : list B) (a : A) :
  Forall2 R la lb -> In a la -> exists b, In b lb /\ R a b.
Proof.
  induction 1 as [|x y xs ys Hxy _ IH]; intros Hin; [contradiction|].
  destruct Hin as [-> | Hin].
  - exists y. split; [left; reflexivity | exact Hxy].
  - destruct (IH Hin) as [b [Hb Hab]]. exists b. split; [right; exact Hb | exact Hab].
Qed.

(** The event handlers of the components are copied when the table is
    complete: with distinct ids among the components of the page, the
    clone of a handler of the component [c] that controls a component
    [d] of the page is a handler of the clone of [c] and controls the
    clone of [d]. *)
Lemma clonePage_component_event_controls_clone
  (pageId appVersionId : string) (p : Page.t) (st : Store) :
  find (hasId pageId) (pages st) = Some p ->
  NoDup (map Component.id (componentsOf st pageId)) ->
  exists clones answer st',
    clonePage pageId appVersionId st = (Returned answer, st')
    /\ components st' = components st ++ clones
    /\ forall c c' d d' e definition,
         In (c, c') (combine (componentsOf st pageId) clones) ->
         In (d, d') (combine (componentsOf st pageId) clones) ->
         In e (eventsOf st (Component.id c)) ->
         EventHandler.event e = Some definition ->
         EventDefinition.actionId definition = "control-component" ->
         EventDefinition.componentId definition = Some (Component.id d) ->
         exists e',
           In e' (eventHandlers st')
           /\ EventHandler.sourceId e' = Component.id c'
           /\ EventHandler.event e'
              = Some (EventDefinition.withComponentId (Some (Component.id d')) definition).
Proof.
  intros Hfind Hdistinct.
  destruct (clonePage_run pageId appVersionId p st Hfind)
    as [newPage [pairs [PE [LL [EE [answer [Hrun [_ Hshape]]]]]]]].
  destruct Hshape as [_ [Hfst [_ [_ [_ HEE]]]]].
  set (table := recorded pairs IdMap.empty) in *.
  exists (map (fun pair => reparented table (snd pair)) pairs), answer,
         (cloneStore st [newPage] pairs PE LL EE).
  split; [exact Hrun|]. split; [reflexivity|].
  intros c c' d d' e definition Hc Hd He Hevent Haction Hcontrolled.
  rewrite <- Hfst, combine_maps in Hc, Hd.
  apply in_map_iff in Hc. destruct Hc as [pc [Heqc Hpc]].
  apply in_map_iff in Hd. destruct Hd as [pd [Heqd Hpd]].
  injection Heqc as <- <-. injection Heqd as <- <-.
  destruct (Forall2_In_left _ _ _ pc HEE Hpc) as [E [HE Hclones]].
  destruct (Forall2_In_left _ _ _ e Hclones He) as [e' [He' Hclone]].
  exists e'. rewrite !reparented_id. split; [|split].
  - unfold cloneStore. cbn. apply in_or_app. right. apply in_or_app. right.
    apply in_concat. exists E. split; assumption.
  - rewrite Hclone. reflexivity.
  - rewrite Hclone. cbn [EventHandler.event EventHandler.withId EventHandler.withSourceId].
    unfold remapEvent. rewrite Hevent, Haction, Hcontrolled. cbn [IdMap.key].
    unfold table. rewrite recorded_lookup; [reflexivity | | exact Hpd].
    rewrite <- (map_map fst Component.id), Hfst. exact Hdistinct.
Qed.

End ParentClaim.

(** ** The clone on a store *)

Lemma homeStore_distinct : NoDup (map Component.id (componentsOf homeStore "p1")).
Proof.
  cbn. repeat constructor; cbn; intuition discriminate.
Defined.

Lemma clonePage_index_is_source_plus_one_witness :
  find (hasId "p1") (pages homeStore) = Some home
  /\ exists newPage answer st',
       clonePage "p1" "V" homeStore = (Returned answer, st')
       /\ pages st' = pages homeStore ++ [newPage]
       /\ Page.index newPage = (Page.index home + 1)%Z.
Proof.
  split; [reflexivity|].
  exact (clonePage_index_is_source_plus_one "p1" "V" home homeStore eq_refl).
Defined.

Lemma clonePage_keeps_existing_rows_witness :
  find (hasId "p1") (pages homeStore) = Some home
  /\ exists answer st',
       clonePage "p1" "V" homeStore = (Returned answer, st')
       /\ extends homeStore st'
       /\ appVersions st' = appVersions homeStore.
Proof.
  split; [reflexivity|].
  exact (clonePage_keeps_existing_rows "p1" "V" home homeStore eq_refl).
Defined.


Lemma clonePage_copy_has_same_counts_witness :
  componentCount homeStore "p1" = 2
  /\ layoutCount homeStore "p1" = 2
  /\ eventCount homeStore "p1" = 2
  /\ exists newPage answer st',
       clonePage "p1" "V" homeStore = (Returned answer, st')
       /\ pages st' = pages homeStore ++ [newPage]
       /\ Page.name newPage <> Page.name home
       /\ Page.handle newPage <> Page.handle home
       /\ componentCount st' (Page.id newPage) = componentCount homeStore "p1"
       /\ layoutCount st' (Page.id newPage) = layoutCount homeStore "p1"
       /\ eventCount st' (Page.id newPage) = eventCount homeStore "p1".
Proof.
  split; [reflexivity|]. split; [reflexivity|]. split; [reflexivity|].
  exact (clonePage_copy_has_same_counts "p1" "V" home homeStore eq_refl).
Defined.

Lemma clonePage_parent_is_cloned_parent_witness :
  components (snd (clonePage "p1" "V" homeStore))
  = [button; text;
     Component.mk "#0000" "#00" None "button";
     Component.mk "#00000" "#00" (Some "#0000") "text"]
  /\ exists clones answer st',
       clonePage "p1" "V" homeStore = (Returned answer, st')
       /\ components st' = components homeStore ++ clones
       /\ List.length clones = List.length (componentsOf homeStore "p1")
       /\ forall c c' d d',
            In (c, c') (combine (componentsOf homeStore "p1") clones) ->
            In (d, d') (combine (componentsOf homeStore "p1") clones) ->
            Component.parent c = Some (Component.id d) ->
            Component.parent c' = Some (Component.id d')
            /\ ~ In (Component.id d') (map Component.id (components homeStore)).
Proof.
  split; [reflexivity|].
  exact (clonePage_parent_is_cloned_parent "p1" "V" home homeStore eq_refl homeStore_distinct).
Defined.

(** The failing input of C2: the handler of the page controls the
    button; its clone controls nothing, while the clone of the button
    is the row ["#0000"]. *)
Lemma clonePage_page_event_loses_component_witness :
  components (snd (clonePage "p1" "V" controlStore))
  = [button; Component.mk "#0000" "#00" None "button"]
  /\ eventHandlers (snd (clonePage "p1" "V" controlStore))
     = [onPageLoad;
        EventHandler.mk "#000" "#00"
          (Some (EventDefinition.mk "onPageLoad" "control-component" None)) "V"]
  /\ exists newPage answer st' e',
       clonePage "p1" "V" controlStore = (Returned answer, st')
       /\ pages st' = pages controlStore ++ [newPage]
       /\ In e' (eventHandlers st')
       /\ ~ In e' (eventHandlers controlStore)
       /\ EventHandler.sourceId e' = Page.id newPage
       /\ EventHandler.event e'
          = Some (EventDefinition.withComponentId None
                    (EventDefinition.mk "onPageLoad" "control-component" (Some "c1"))).
Proof.
  split; [reflexivity|]. split; [reflexivity|].
  exact (clonePage_page_event_loses_component
           "p1" "V" home controlStore onPageLoad
           (EventDefinition.mk "onPageLoad" "control-component" (Some "c1"))
           eq_refl (or_introl eq_refl) eq_refl eq_refl).
Defined.

(** * Further properties of the service *)

(** ** Create *)

Lemma find_written_row (entity : Page.t) (ps : list Page.t) :
  existsb (hasId (Page.id entity)) ps = true ->
  find (hasId (Page.id entity))
       (map (fun p => if hasId (Page.id entity) p then entity else p) ps)
  = Some entity.
Proof.
  induction ps as [|q rest IH]; cbn; [discriminate|].
  destruct (hasId (Page.id entity) q) eqn:Hq.
  - intros _. cbn. unfold hasId at 1. rewrite String.eqb_refl. reflexivity.
  - cbn [orb]. intros Hrest. cbn [find]. rewrite Hq. apply IH. exact Hrest.
Qed.

Lemma existsb_hasId_false (pageId : string) (ps : list Page.t) :
  existsb (hasId pageId) ps = false -> find (hasId pageId) ps = None.
Proof.
  induction ps as [|q rest IH]; cbn; [reflexivity|].
  destruct (hasId pageId q); cbn; [discriminate | exact IH].
Qed.

(** X1. A page that was created is found under its id, with the name,
    the handle and the index of the request and the version it was
    created in, whether the id was free or taken. *)
Theorem createPage_then_findOne (page : CreatePageDto.t) (appVersionId : string) (st : Store) :
  let newPage :=
    Page.mk (CreatePageDto.id page) (CreatePageDto.name page) (CreatePageDto.handle page)
            (CreatePageDto.index page) appVersionId in
  exists st',
    createPage page appVersionId st = (Returned newPage, st')
    /\ findOnePage (CreatePageDto.id page) st' = (Returned (Some newPage), st').
Proof.
  intros newPage.
  unfold createPage, dbTransactionForAppVersionAssociationsUpdate, savePageEntity.
  fold newPage. change (Page.id newPage) with (CreatePageDto.id page).
  destruct (existsb (hasId (CreatePageDto.id page)) (pages st)) eqn:Hexists.
  - eexists. split; [reflexivity|].
    unfold findOnePage. cbn [pages withPages]. f_equal. f_equal.
    apply (find_written_row newPage). exact Hexists.
  - eexists. split; [reflexivity|].
    unfold findOnePage. cbn [pages withPages]. f_equal. f_equal.
    rewrite find_append, (existsb_hasId_false _ _ Hexists).
    cbn. unfold hasId. cbn. rewrite String.eqb_refl. reflexivity.
Qed.

Lemma filter_others_written (k : string) (entity : Page.t) (ps : list Page.t) :
  hasId k entity = true ->
  filter (fun p => negb (hasId k p)) (map (fun p => if hasId k p then entity else p) ps)
  = filter (fun p => negb (hasId k p)) ps.
Proof.
  intros Hentity. induction ps as [|q rest IH]; [reflexivity|].
  cbn [map filter]. destruct (hasId k q) eqn:Hq.
  - rewrite Hentity. cbn [negb]. exact IH.
  - rewrite Hq. cbn [negb]. f_equal. exact IH.
Qed.

(** X2. [createPage] writes the page table only, and of that table
    only rows of the id of the request: the rows of other ids are the
    rows before, in their order. *)
Theorem createPage_keeps_other_rows (page : CreatePageDto.t) (appVersionId : string)
  (st : Store) :
  exists created st',
    createPage page appVersionId st = (Returned created, st')
    /\ filter (fun p => negb (hasId (CreatePageDto.id page) p)) (pages st')
       = filter (fun p => negb (hasId (CreatePageDto.id page) p)) (pages st)
    /\ components st' = components st
    /\ layouts st' = layouts st
    /\ eventHandlers st' = eventHandlers st
    /\ appVersions st' = appVersions st.
Proof.
  unfold createPage, dbTransactionForAppVersionAssociationsUpdate, savePageEntity.
  cbn [Page.id].
  set (newPage := Page.mk _ _ _ _ _).
  assert (Hnew : hasId (CreatePageDto.id page) newPage = true)
    by (unfold hasId; cbn; apply String.eqb_refl).
  destruct (existsb (hasId (CreatePageDto.id page)) (pages st)).
  - do 2 eexists. split; [reflexivity|].
    cbn [pages components layouts eventHandlers appVersions withPages]. repeat split.
    apply filter_others_written. exact Hnew.
  - do 2 eexists. split; [reflexivity|].
    cbn [pages components layouts eventHandlers appVersions withPages]. repeat split.
    rewrite filter_app. cbn [filter]. rewrite Hnew. cbn [negb]. apply app_nil_r.
Qed.

Lemma NoDup_append {A : Type} (l1 l2 : list A) :
  NoDup l1 -> NoDup l2 -> (forall x, In x l1 -> ~ In x l2) -> NoDup (l1 ++ l2).
Proof.
  intros H1 H2 Hdisjoint. induction H1 as [|x l Hx _ IH]; [exact H2|].
  cbn. constructor.
  - rewrite in_app_iff. intros [Hin | Hin]; [exact (Hx Hin)|].
    exact (Hdisjoint x (or_introl eq_refl) Hin).
  - apply IH. intros y Hy. apply Hdisjoint. right. exact Hy.
Qed.

(** X3. [createPage] keeps the ids of the pages distinct. *)
Theorem createPage_keeps_ids_distinct (page : CreatePageDto.t) (appVersionId : string)
  (st : Store) :
  NoDup (map Page.id (pages st)) ->
  exists created st',
    createPage page appVersionId st = (Returned created, st')
    /\ NoDup (map Page.id (pages st')).
Proof.
  intros Hnodup.
  unfold createPage, dbTransactionForAppVersionAssociationsUpdate, savePageEntity.
  cbn [Page.id].
  set (newPage := Page.mk _ _ _ _ _).
  destruct (existsb (hasId (CreatePageDto.id page)) (pages st)) eqn:Hexists.
  - do 2 eexists. split; [reflexivity|]. cbn [pages withPages].
    rewrite map_map.
    erewrite map_ext; [exact Hnodup|].
    intros q. cbn. destruct (hasId (CreatePageDto.id page) q) eqn:Hq; [|reflexivity].
    unfold hasId in Hq. apply String.eqb_eq in Hq. symmetry. exact Hq.
  - do 2 eexists. split; [reflexivity|]. cbn [pages withPages].
    rewrite map_app. apply NoDup_append; [exact Hnodup | repeat constructor; intros [] |].
    intros x Hin [Hx | []]. cbn in Hx. subst x.
    apply in_map_iff in Hin. destruct Hin as [q [Hid Hq]].
    apply existsb_hasId_false in Hexists.
    exact (proj1 (find_none_iff _ _) Hexists q Hq Hid).
Qed.

(** ** Delete *)

Lemma deletePage_run (pageId appVersionId : string) (p : Page.t) (st : Store) :
  find (hasId pageId) (pages st) = Some p ->
  isHomePage (find (fun v => String.eqb (AppVersion.id v) appVersionId) (appVersions st)) pageId
  = false ->
  let others := filter (fun r => negb (hasId pageId r)) (pages st) in
  let qs :=
    rearrangePagesOnDelete
      (filter (fun r => String.eqb (Page.appVersionId r) (Page.appVersionId p)) others)
      (Page.index p) in
  deletePage pageId appVersionId st
  = (Returned (map (fun _ => tt) qs),
     withPages
       (fold_left (fun table q => map (fun r => if hasId (Page.id q) r then q else r) table)
                  qs others)
       (withEventHandlers
          (filter (fun e => negb (String.eqb (EventHandler.sourceId e) (Page.id p)))
                  (eventHandlers st)) st)).
Proof.
  intros Hfind Hhome others qs.
  unfold deletePage, dbTransactionForAppVersionAssociationsUpdate.
  erewrite bind_returned by reflexivity.
  erewrite bind_returned by reflexivity.
  rewrite Hfind. cbn [editingVersion]. rewrite Hhome.
  erewrite bind_returned by reflexivity.
  erewrite bind_returned by reflexivity.
  cbn [affected pages withEventHandlers].
  destruct (Nat.eqb_spec (List.length (filter (hasId pageId) (pages st))) 0) as [Hzero|_].
  { exfalso. apply length_zero_iff_nil in Hzero.
    apply find_some in Hfind. destruct Hfind as [Hin Hid].
    assert (Hp : In p (filter (hasId pageId) (pages st)))
      by (apply filter_In; split; assumption).
    rewrite Hzero in Hp. exact Hp. }
  erewrite bind_returned by reflexivity.
  cbn [pages withPages]. fold others. fold qs.
  rewrite update_all_run. reflexivity.
Qed.

Lemma deletePage_missing_run (pageId appVersionId : string) (st : Store) :
  find (hasId pageId) (pages st) = None ->
  deletePage pageId appVersionId st = (Thrown (Error "Page not found"), st).
Proof.
  intros Hnone.
  unfold deletePage, dbTransactionForAppVersionAssociationsUpdate.
  erewrite bind_returned by reflexivity.
  erewrite bind_returned by reflexivity.
  rewrite Hnone. reflexivity.
Qed.

(** X4. [deletePage] of an id that no page has throws ["Page not
    found"], a [NotFound], and leaves the store as it was, whatever the
    home page of the version is. *)
Theorem deletePage_missing_page_not_found (pageId appVersionId : string) (st : Store) :
  (forall p, In p (pages st) -> Page.id p <> pageId) ->
  deletePage pageId appVersionId st = (Thrown (Error "Page not found"), st)
  /\ kind (Error "Page not found") = NotFound.
Proof.
  intros Hmissing. split; [|reflexivity].
  apply deletePage_missing_run. apply find_none_iff. exact Hmissing.
Qed.


Lemma fold_written_ids (qs table : list Page.t) :
  map Page.id
      (fold_left (fun table q => map (fun r => if hasId (Page.id q) r then q else r) table)
                 qs table)
  = map Page.id table.
Proof.
  revert table. induction qs as [|q rest IH]; intros table; [reflexivity|].
  cbn [fold_left]. rewrite IH, map_map. apply map_ext. intros r.
  destruct (hasId (Page.id q) r) eqn:Hq; [|reflexivity].
  unfold hasId in Hq. apply String.eqb_eq in Hq. symmetry. exact Hq.
Qed.

(** X6. After [deletePage] returns, the ids of the pages are the ids
    before without the id that was deleted, in their order; deleting the
    same id again throws ["Page not found"]. *)
Theorem deletePage_removes_the_row (pageId appVersionId : string) (p : Page.t) (st : Store) :
  find (hasId pageId) (pages st) = Some p ->
  (forall v, find (fun v => String.eqb (AppVersion.id v) appVersionId) (appVersions st) = Some v ->
             AppVersion.homePageId v <> Some pageId) ->
  exists answers st',
    deletePage pageId appVersionId st = (Returned answers, st')
    /\ map Page.id (pages st')
       = filter (fun i => negb (String.eqb i pageId)) (map Page.id (pages st))
    /\ deletePage pageId appVersionId st' = (Thrown (Error "Page not found"), st').
Proof.
  intros Hfind Hhome.
  assert (Hrun := deletePage_run pageId appVersionId p st Hfind (isHomePage_false _ _ Hhome)).
  cbv zeta in Hrun.
  do 2 eexists. split; [exact Hrun|].
  assert (Hids : forall ps, map Page.id (filter (fun r => negb (hasId pageId r)) ps)
                            = filter (fun i => negb (String.eqb i pageId)) (map Page.id ps)).
  { induction ps as [|q rest IH]; [reflexivity|].
    cbn. unfold hasId at 1. destruct (String.eqb (Page.id q) pageId); cbn; rewrite IH; reflexivity. }
  split.
  - cbn [pages withPages]. rewrite fold_written_ids. apply Hids.
  - apply deletePage_missing_run. apply find_none_iff.
    intros q Hq Hid.
    assert (Hin : In (Page.id q) (map Page.id (filter (fun r => negb (hasId pageId r)) (pages st)))).
    { cbn [pages withPages] in Hq. rewrite <- (fold_written_ids
        (rearrangePagesOnDelete
           (filter (fun r => String.eqb (Page.appVersionId r) (Page.appVersionId p))
                   (filter (fun r => negb (hasId pageId r)) (pages st)))
           (Page.index p))).
      apply in_map. exact Hq. }
    apply in_map_iff in Hin. destruct Hin as [r [Hr Hrin]].
    apply filter_In in Hrin. destruct Hrin as [_ Hneg].
    unfold hasId in Hneg. rewrite Hr, Hid, String.eqb_refl in Hneg. discriminate.
Qed.

Lemma mapi_from_origin {A B : Type} (f : A -> nat -> B) (start : nat) (l : list A) (y : B) :
  In y (mapi_from f start l) -> exists x i, In x l /\ y = f x i.
Proof.
  revert start. induction l as [|x rest IH]; intros start Hin; [contradiction|].
  destruct Hin as [<- | Hin].
  - exists x, start. split; [left; reflexivity | reflexivity].
  - destruct (IH _ Hin) as [x' [i [Hx' Hy]]]. exists x', i. split; [right; exact Hx' | exact Hy].
Qed.

Lemma Forall2_map_right {A B : Type} (R : A -> B -> Prop) (g : A -> B) (l : list A) :
  (forall x, In x l -> R x (g x)) -> Forall2 R l (map g l).
Proof.
  induction l as [|x rest IH]; intros HR; constructor.
  - apply HR. left. reflexivity.
  - apply IH. intros y Hy. apply HR. right. exact Hy.
Qed.

(** X7. With distinct page ids, [deletePage] writes nothing in the
    page table but the index of pages of the version of the deleted
    page: every other page keeps its id, name, handle and version, its
    index stays or goes down by one, and a page of another version stays
    as it is. *)
Theorem deletePage_writes_indices_only (pageId appVersionId : string) (p : Page.t) (st : Store) :
  NoDup (map Page.id (pages st)) ->
  find (hasId pageId) (pages st) = Some p ->
  (forall v, find (fun v => String.eqb (AppVersion.id v) appVersionId) (appVersions st) = Some v ->
             AppVersion.homePageId v <> Some pageId) ->
  exists answers st',
    deletePage pageId appVersionId st = (Returned answers, st')
    /\ Forall2 (fun before after =>
                  (after = before \/ after = decrement before)
                  /\ (Page.appVersionId before <> Page.appVersionId p -> after = before))
               (filter (fun r => negb (hasId pageId r)) (pages st)) (pages st').
Proof.
  intros Hnodup Hfind Hhome.
  assert (Hrun := deletePage_run pageId appVersionId p st Hfind (isHomePage_false _ _ Hhome)).
  cbv zeta in Hrun.
  set (others := filter (fun r => negb (hasId pageId r)) (pages st)) in *.
  set (inV := fun r => String.eqb (Page.appVersionId r) (Page.appVersionId p)) in *.
  set (qs := rearrangePagesOnDelete (filter inV others) (Page.index p)) in *.
  assert (Hothers : NoDup (map Page.id others)) by (apply NoDup_ids_filter; exact Hnodup).
  assert (Hqids : map Page.id qs = map Page.id (filter inV others)).
  { unfold qs, rearrangePagesOnDelete, mapi. apply mapi_from_ids.
    intros q i. destruct (_ >=? _)%Z; reflexivity. }
  rewrite fold_written in Hrun
    by (rewrite Hqids; apply NoDup_ids_filter; exact Hothers).
  do 2 eexists. split; [exact Hrun|].
  cbn [pages withPages withEventHandlers].
  apply Forall2_map_right. intros r Hr. unfold written.
  destruct (find (hasId (Page.id r)) qs) as [q|] eqn:Hq.
  - apply find_some in Hq. destruct Hq as [Hqin Hid].
    unfold hasId in Hid. apply String.eqb_eq in Hid.
    unfold qs, rearrangePagesOnDelete, mapi in Hqin.
    apply mapi_from_origin in Hqin. destruct Hqin as [x [i [Hx Hq]]].
    apply filter_In in Hx. destruct Hx as [Hx HxV].
    assert (Hxr : x = r).
    { apply (NoDup_ids_injective others); try assumption.
      rewrite <- Hid, Hq. destruct (_ >=? _)%Z; reflexivity. }
    subst x. split.
    + rewrite Hq. destruct (_ >=? _)%Z; [right | left]; reflexivity.
    + intros Hother. exfalso. apply Hother. apply String.eqb_eq. exact HxV.
  - split; [left; reflexivity | intros _; reflexivity].
Qed.

(** ** The rearrangement *)

(** X8. [rearrangePagesOnDelete] goes by the position of a row, not by
    its index: the first [pageDeletedIndex - 1] rows of the array stay as
    they are and every row after them has its index decremented.  So
    nothing changes when the deleted index is beyond the end of the
    array, and every row is decremented when it is at most 1. *)
Theorem rearrangePagesOnDelete_splits_by_position (pages : list Page.t) (pageDeletedIndex : Z) :
  rearrangePagesOnDelete pages pageDeletedIndex
  = firstn (Z.to_nat (pageDeletedIndex - 1)) pages
    ++ map decrement (skipn (Z.to_nat (pageDeletedIndex - 1)) pages).
Proof.
  set (k := Z.to_nat (pageDeletedIndex - 1)).
  change (rearrangePagesOnDelete pages pageDeletedIndex)
    with (mapi_from (rearranged pageDeletedIndex) 0 pages).
  rewrite <- (firstn_skipn k pages) at 1.
  rewrite mapi_from_append. f_equal.
  - destruct (firstn k pages) as [|x rest] eqn:Hfirst; [reflexivity|].
    rewrite <- Hfirst. apply rearranged_before.
    assert (Hlen : List.length (firstn k pages) <= k) by apply firstn_le_length.
    assert (Hpos : 0 < List.length (firstn k pages)) by (rewrite Hfirst; cbn; lia).
    unfold k in *. lia.
  - destruct (skipn k pages) as [|x rest] eqn:Hskip; [reflexivity|].
    rewrite <- Hskip. apply rearranged_after.
    assert (Hlt : k < List.length pages).
    { destruct (Nat.lt_ge_cases k (List.length pages)) as [Hlt|Hge]; [exact Hlt|].
      rewrite (skipn_all2 pages Hge) in Hskip. discriminate. }
    rewrite length_firstn, Nat.min_l by lia. unfold k in *. lia.
Qed.

(** ** Reorder *)

Lemma pagesToPage_run (changes : Js.obj) (ks : list string) (st : Store) :
  (forall k, In k ks -> Js.prop (Js.get changes k) "index" <> None) ->
  mapM (pageToPage changes) ks st
  = (Returned (map (fun k => Page.mkIdAndIndex k (requested changes k)) ks), st).
Proof.
  induction ks as [|k rest IH]; intros Hdefined; [reflexivity|].
  cbn [mapM map].
  assert (Hk : pageToPage changes k st
               = (Returned (Page.mkIdAndIndex k (requested changes k)), st)).
  { unfold pageToPage, requested.
    destruct (Js.prop (Js.get changes k) "index") eqn:Hprop; [reflexivity|].
    exfalso. exact (Hdefined k (or_introl eq_refl) Hprop). }
  erewrite bind_returned by exact Hk.
  erewrite bind_returned by (apply IH; intros k' Hk'; apply Hdefined; right; exact Hk').
  reflexivity.
Qed.

Lemma pagesToPage_throws (changes : Js.obj) (ks : list string) (k : string) (st : Store) :
  In k ks -> Js.prop (Js.get changes k) "index" = None ->
  mapM (pageToPage changes) ks st = (Thrown TypeError, st).
Proof.
  intros Hin Hnone. induction ks as [|k' rest IH]; [contradiction|].
  cbn [mapM].
  destruct (Js.prop (Js.get changes k') "index") as [value|] eqn:Hprop.
  - assert (Hk' : pageToPage changes k' st = (Returned (Page.mkIdAndIndex k' value), st))
      by (unfold pageToPage; rewrite Hprop; reflexivity).
    erewrite bind_returned by exact Hk'.
    destruct Hin as [-> | Hin]; [congruence|].
    erewrite bind_thrown by (apply IH; exact Hin). reflexivity.
  - erewrite bind_thrown; [reflexivity|].
    unfold pageToPage. rewrite Hprop. reflexivity.
Qed.

(** The row a page becomes when the keys [ks] of a request are
    written. *)
Lemma reorder_fold (changes : Js.obj) (ks : list string) (st : Store) :
  mapM (fun page => updatePageRow (Page.i_id page) (Page.ofIdAndIndex page) ;; ret tt)
       (map (fun k => Page.mkIdAndIndex k (requested changes k)) ks) st
  = (Returned (map (fun _ => tt) ks),
     withPages
       (map (fun p =>
               if existsb (String.eqb (Page.id p)) ks
               then Page.withIndex
                      (Page.orElse (Js.asNumber (requested changes (Page.id p))) (Page.index p)) p
               else p)
            (pages st))
       st).
Proof.
  revert st. induction ks as [|k rest IH]; intros st.
  - cbn. unfold ret, withPages. rewrite map_id. destruct st; reflexivity.
  - cbn [mapM map].
    erewrite bind_returned by reflexivity.
    erewrite bind_returned by apply IH.
    unfold ret, withPages.
    cbn [pages components layouts eventHandlers appVersions map].
    do 2 f_equal. rewrite map_map. apply map_ext. intros p.
    cbn [Page.i_id Page.i_index Page.ofIdAndIndex existsb].
    unfold hasId.
    destruct (String.eqb_spec (Page.id p) k) as [Heq|Hne]; cbn [orb].
    + subst k. destruct p as [i n h x v].
      unfold Page.assign, Page.ofIdAndIndex, Page.withIndex. cbn.
      destruct (existsb (String.eqb i) rest);
        destruct (Js.asNumber (requested changes i)); reflexivity.
    + reflexivity.
Qed.

Lemma existsb_eqb_In (k : string) (ks : list string) :
  existsb (String.eqb k) ks = true <-> In k ks.
Proof.
  rewrite existsb_exists. split.
  - intros [x [Hx Heq]]. apply String.eqb_eq in Heq. subst x. exact Hx.
  - intros Hin. exists k. split; [exact Hin | apply String.eqb_refl].
Qed.

Lemma withIndex_same (p : Page.t) : Page.withIndex (Page.index p) p = p.
Proof. destruct p; reflexivity. Qed.

Lemma reorder_row (changes : Js.obj) (p : Page.t) :
  (forall k, In k (Js.keys changes) -> Js.prop (Js.get changes k) "index" <> None) ->
  (if existsb (String.eqb (Page.id p)) (Js.keys changes)
   then Page.withIndex
          (Page.orElse (Js.asNumber (requested changes (Page.id p))) (Page.index p)) p
   else p)
  = Page.withIndex (reorderedIndex changes p) p.
Proof.
  intros Hdefined. unfold reorderedIndex, requested.
  destruct (existsb (String.eqb (Page.id p)) (Js.keys changes)) eqn:Hkey.
  - apply existsb_eqb_In in Hkey. specialize (Hdefined _ Hkey).
    destruct (Js.prop (Js.get changes (Page.id p)) "index"); [reflexivity | contradiction].
  - symmetry. apply withIndex_same.
Qed.

Lemma updatePagesOrder_run (changes : Js.obj) (appVersionId : string) (st : Store) :
  (forall k, In k (Js.keys changes) -> Js.prop (Js.get changes k) "index" <> None) ->
  updatePagesOrder changes appVersionId st
  = (Returned tt,
     withPages (map (fun p => Page.withIndex (reorderedIndex changes p) p) (pages st)) st).
Proof.
  intros Hdefined.
  unfold updatePagesOrder, dbTransactionForAppVersionAssociationsUpdate.
  erewrite bind_returned by (apply pagesToPage_run; exact Hdefined).
  erewrite bind_returned by apply reorder_fold.
  unfold ret. do 2 f_equal. apply map_ext. intros p.
  apply reorder_row. exact Hdefined.
Qed.

Lemma indexTyped_defined (changes : Js.obj) :
  (forall k, In k (Js.keys changes) -> indexTyped changes k) ->
  forall k, In k (Js.keys changes) -> Js.prop (Js.get changes k) "index" <> None.
Proof.
  intros Htyped k Hk Hnone. specialize (Htyped k Hk).
  unfold indexTyped in Htyped. rewrite Hnone in Htyped. exact Htyped.
Qed.

Lemma indexNumbered_defined (changes : Js.obj) :
  (forall k, In k (Js.keys changes) -> indexNumbered changes k) ->
  forall k, In k (Js.keys changes) -> Js.prop (Js.get changes k) "index" <> None.
Proof.
  intros Hnumbered k Hk Hnone. specialize (Hnumbered k Hk).
  unfold indexNumbered in Hnumbered. rewrite Hnone in Hnumbered. exact Hnumbered.
Qed.

(** X9. A reorder request that holds a number as index for every one
    of its keys returns, and writes nothing but indices: every page
    keeps its id, name, handle and version; a page whose id is a key of
    the request gets the number the request holds for it, and a page
    that is not named keeps its index. *)
Theorem updatePagesOrder_writes_requested_indices
  (changes : Js.obj) (appVersionId : string) (st : Store) :
  (forall k, In k (Js.keys changes) -> indexNumbered changes k) ->
  updatePagesOrder changes appVersionId st
  = (Returned tt,
     withPages (map (fun p => Page.withIndex (reorderedIndex changes p) p) (pages st)) st)
  /\ forall p, In p (pages st) ->
       (forall n, Js.prop (Js.get changes (Page.id p)) "index" = Some (Js.number n) ->
                  In (Page.id p) (Js.keys changes) ->
                  reorderedIndex changes p = n)
       /\ (~ In (Page.id p) (Js.keys changes) -> reorderedIndex changes p = Page.index p).
Proof.
  intros Hnumbered. split.
  - apply updatePagesOrder_run. apply indexNumbered_defined. exact Hnumbered.
  - intros p _. unfold reorderedIndex. split.
    + intros n Hn Hkey. rewrite (proj2 (existsb_eqb_In _ _) Hkey), Hn. reflexivity.
    + intros Hkey.
      destruct (existsb (String.eqb (Page.id p)) (Js.keys changes)) eqn:Hex; [|reflexivity].
      exfalso. apply Hkey. apply existsb_eqb_In. exact Hex.
Qed.

Lemma reorderedIndex_again (changes : Js.obj) (p : Page.t) :
  reorderedIndex changes (Page.withIndex (reorderedIndex changes p) p)
  = reorderedIndex changes p.
Proof.
  unfold reorderedIndex. cbn [Page.id Page.withIndex Page.index].
  destruct (existsb (String.eqb (Page.id p)) (Js.keys changes)); [|reflexivity].
  destruct (Js.prop (Js.get changes (Page.id p)) "index") as [value|]; [|reflexivity].
  destruct (Js.asNumber value); reflexivity.
Qed.

(** X10. A reorder request is idempotent: sent again, it returns and
    leaves the store as the first run left it. *)
Theorem updatePagesOrder_idempotent
  (changes : Js.obj) (appVersionId : string) (st : Store) :
  (forall k, In k (Js.keys changes) -> indexTyped changes k) ->
  updatePagesOrder changes appVersionId (snd (updatePagesOrder changes appVersionId st))
  = (Returned tt, snd (updatePagesOrder changes appVersionId st)).
Proof.
  intros Htyped. assert (Hdefined := indexTyped_defined changes Htyped).
  rewrite (updatePagesOrder_run changes appVersionId st Hdefined).
  cbn [snd].
  rewrite (updatePagesOrder_run changes appVersionId _ Hdefined).
  unfold withPages. cbn [pages components layouts eventHandlers appVersions].
  do 2 f_equal. rewrite map_map. apply map_ext. intros p.
  rewrite reorderedIndex_again. destruct p; reflexivity.
Qed.

(** X11. When a value of the request is [null] or [undefined], the
    reorder throws a [TypeError] before its transaction: no index is
    written, also not for the keys before that one. *)
Theorem updatePagesOrder_null_value_throws
  (changes : Js.obj) (appVersionId k : string) (st : Store) :
  In k (Js.keys changes) ->
  Js.get changes k = Js.null \/ Js.get changes k = Js.undefined ->
  updatePagesOrder changes appVersionId st = (Thrown TypeError, st).
Proof.
  intros Hin Hvalue.
  unfold updatePagesOrder.
  erewrite bind_thrown; [reflexivity|].
  apply (pagesToPage_throws changes (Js.keys changes) k st Hin).
  destruct Hvalue as [-> | ->]; reflexivity.
Qed.


Lemma get_defined_key (o : Js.obj) (k : string) (props : Js.obj) :
  Js.get o k = Js.object props -> In k (Js.keys o).
Proof.
  induction o as [|[k' v] rest IH]; cbn; [discriminate|].
  destruct (String.eqb_spec k' k) as [Heq|_].
  - intros _. left. exact Heq.
  - intros Hget. right. apply IH. exact Hget.
Qed.

Lemma find_map_keeping_id (g : Page.t -> Page.t) (k : string) (ps : list Page.t) :
  (forall p, Page.id (g p) = Page.id p) ->
  find (hasId k) (map g ps) = option_map g (find (hasId k) ps).
Proof.
  intros Hid. induction ps as [|q rest IH]; [reflexivity|].
  cbn. unfold hasId at 1 3. rewrite Hid.
  destruct (String.eqb (Page.id q) k); [reflexivity | exact IH].
Qed.

(** X13. After a reorder, the page found under an id of the request
    is the page found before with the index the request holds for it. *)
Theorem updatePagesOrder_then_findOne
  (changes props : Js.obj) (appVersionId : string) (p : Page.t) (n : Z) (st : Store) :
  (forall k, In k (Js.keys changes) -> indexTyped changes k) ->
  find (hasId (Page.id p)) (pages st) = Some p ->
  Js.get changes (Page.id p) = Js.object props ->
  Js.get props "index" = Js.number n ->
  exists st',
    updatePagesOrder changes appVersionId st = (Returned tt, st')
    /\ findOnePage (Page.id p) st' = (Returned (Some (Page.withIndex n p)), st').
Proof.
  intros Htyped Hfind Hobject Hnumber.
  eexists. split; [apply updatePagesOrder_run, indexTyped_defined; exact Htyped|].
  unfold findOnePage. cbn [pages withPages]. f_equal.
  rewrite find_map_keeping_id by reflexivity.
  rewrite Hfind. cbn [option_map]. do 2 f_equal.
  unfold reorderedIndex.
  rewrite (proj2 (existsb_eqb_In _ _) (get_defined_key _ _ _ Hobject)).
  rewrite Hobject. cbn [Js.prop]. rewrite Hnumber. reflexivity.
Qed.

(** ** Update: the plain path *)

(** X14. A request that changes the name alone, for a page that
    exists, renames the page: the page found under the id afterwards is
    the page found before with the new name, the store reports the rows
    it wrote, and the rows of other ids are as they were. *)
Theorem updatePage_renames
  (pageUpdates : UpdatePageDto) (appVersionId n : string) (p : Page.t) (st : Store) :
  find (hasId (pageId pageUpdates)) (pages st) = Some p ->
  diff pageUpdates = [("name", Js.str n)] ->
  exists st',
    updatePage pageUpdates appVersionId st
    = (Returned (Some (mkUpdateResult
                         (List.length (filter (hasId (pageId pageUpdates)) (pages st))))), st')
    /\ findOnePage (pageId pageUpdates) st' = (Returned (Some (renamed n p)), st')
    /\ filter (fun r => negb (hasId (pageId pageUpdates) r)) (pages st')
       = filter (fun r => negb (hasId (pageId pageUpdates) r)) (pages st).
Proof.
  intros Hfind Hdiff.
  unfold updatePage. rewrite Hdiff. cbn [Js.keys map List.length Nat.ltb Nat.leb].
  erewrite bind_returned by reflexivity. rewrite Hfind.
  erewrite bind_returned by reflexivity.
  eexists. split; [reflexivity|].
  cbn [pages withPages]. split.
  - unfold findOnePage. cbn [pages withPages]. f_equal.
    induction (pages st) as [|q rest IH]; [discriminate|].
    cbn [find map] in *. destruct (hasId (pageId pageUpdates) q) eqn:Hq.
    + injection Hfind as ->. cbn [find].
      assert (Hkeeps : hasId (pageId pageUpdates)
                         (Page.assign (Page.ofObject [("name", Js.str n)]) p) = true)
        by (destruct p; exact Hq).
      rewrite Hkeeps. destruct p; reflexivity.
    + cbn [find]. rewrite Hq. apply IH. exact Hfind.
  - clear Hfind. induction (pages st) as [|q rest IH]; [reflexivity|].
    cbn [filter map]. destruct (hasId (pageId pageUpdates) q) eqn:Hq.
    + assert (Hkeeps : hasId (pageId pageUpdates)
                         (Page.assign (Page.ofObject [("name", Js.str n)]) q) = true)
        by (destruct q; exact Hq).
      rewrite Hkeeps. cbn [negb]. exact IH.
    + rewrite Hq. cbn [negb]. f_equal. exact IH.
Qed.

(** ** Clone: names, handles and collisions *)

Lemma append_associative (a b c : string) : ((a ++ b) ++ c)%string = (a ++ b ++ c)%string.
Proof. induction a as [|x a IH]; cbn; [reflexivity | rewrite IH; reflexivity]. Qed.

Lemma append_cancel (s a b : string) : (s ++ a)%string = (s ++ b)%string -> a = b.
Proof.
  induction s as [|x s IH]; cbn; intros H; [exact H|].
  injection H as H. apply IH. exact H.
Qed.

Lemma decimal_injective (n m : nat) : decimal n = decimal m -> n = m.
Proof.
  unfold decimal. intros H. apply Unsigned.to_uint_inj.
  assert (Hsome : Some (Nat.to_uint n) = Some (Nat.to_uint m))
    by (rewrite <- !NilEmpty.usu, H; reflexivity).
  injection Hsome as Hsome. exact Hsome.
Qed.

Lemma includes_prefix (s pattern : string) :
  String.prefix pattern s = true -> includes s pattern = true.
Proof. intros H. destruct s; cbn [includes]; rewrite H; reflexivity. Qed.

Section CloneNames.

Context {ids : IdGenerator}.

(** X15. [clonePage] of an id that no page has throws ["Page not
    found"], a [NotFound], and leaves the store as it was. *)
Theorem clonePage_missing_page_not_found (pageId appVersionId : string) (st : Store) :
  (forall p, In p (pages st) -> Page.id p <> pageId) ->
  clonePage pageId appVersionId st = (Thrown (Error "Page not found"), st)
  /\ kind (Error "Page not found") = NotFound.
Proof.
  intros Hmissing. split; [|reflexivity].
  unfold clonePage, dbTransactionForAppVersionAssociationsUpdate.
  erewrite bind_returned by reflexivity.
  rewrite (proj2 (find_none_iff _ _) Hmissing). reflexivity.
Qed.

(** X16. When no page of the version has a name that contains
    ["<name> (copy)"] or a handle that contains ["<handle>-copy"], the
    copy is named ["<name> (copy)"] and has the handle
    ["<handle>-copy"], without a number. *)
Theorem clonePage_without_collision
  (pageId appVersionId : string) (p : Page.t) (st : Store) :
  find (hasId pageId) (pages st) = Some p ->
  (forall q, In q (pagesOfVersion st appVersionId) ->
             includes (Page.name q) (Page.name p ++ " (copy)") = false
             /\ includes (Page.handle q) (Page.handle p ++ "-copy") = false) ->
  exists newPage answer st',
    clonePage pageId appVersionId st = (Returned answer, st')
    /\ pages st' = pages st ++ [newPage]
    /\ Page.name newPage = (Page.name p ++ " (copy)")%string
    /\ Page.handle newPage = (Page.handle p ++ "-copy")%string.
Proof.
  intros Hfind Hfree.
  destruct (clonePage_run pageId appVersionId p st Hfind)
    as [newPage [pairs [PE [LL [EE [answer [Hrun [Hpage _]]]]]]]].
  assert (Hzero : collisions st appVersionId p = 0).
  { unfold collisions, pageNameORHandleExists. rewrite filter_nothing; [reflexivity|].
    intros q Hq. destruct (Hfree q Hq) as [-> ->]. reflexivity. }
  exists newPage, answer, (cloneStore st [newPage] pairs PE LL EE).
  split; [exact Hrun|]. split; [reflexivity|].
  rewrite Hpage, Hzero. split; reflexivity.
Qed.

Lemma clone_collides (p newPage : Page.t) (c : nat) (i n : string) (x : Z) (v : string) :
  newPage
  = Page.mk i n
            (if (0 <? c)%nat
             then (Page.handle p ++ "-copy-" ++ decimal c)%string
             else (Page.handle p ++ "-copy")%string)
            x v ->
  includes (Page.name newPage) (Page.name p ++ " (copy)")
  || includes (Page.handle newPage) (Page.handle p ++ "-copy") = true.
Proof.
  intros ->. cbn [Page.name Page.handle]. apply orb_true_iff. right.
  apply includes_prefix. apply prefix_append.
  destruct (0 <? c)%nat.
  - exists ("-" ++ decimal c)%string.
    exact (eq_sym (append_associative (Page.handle p) "-copy" ("-" ++ decimal c))).
  - exists ""%string.
    exact (eq_sym (append_associative (Page.handle p) "-copy" "")).
Qed.

Lemma clone_pagesOfVersion (st : Store) (appVersionId : string) (newPage : Page.t)
  (pairs : list (Component.t * Component.t)) (PE : list EventHandler.t)
  (LL : list (list Layout.t)) (EE : list (list EventHandler.t)) :
  Page.appVersionId newPage = appVersionId ->
  pagesOfVersion (cloneStore st [newPage] pairs PE LL EE) appVersionId
  = pagesOfVersion st appVersionId ++ [newPage].
Proof.
  intros Hversion. unfold pagesOfVersion, cloneStore. cbn [pages].
  rewrite filter_app. cbn [filter]. rewrite Hversion, String.eqb_refl. reflexivity.
Qed.

(** X17. Every clone of a page adds one to the collisions the next
    clone of that page into the same version counts: the copy itself
    collides, by its handle. *)
Theorem clonePage_adds_a_collision
  (pageId appVersionId : string) (p : Page.t) (st : Store) :
  find (hasId pageId) (pages st) = Some p ->
  exists answer st',
    clonePage pageId appVersionId st = (Returned answer, st')
    /\ find (hasId pageId) (pages st') = Some p
    /\ collisions st' appVersionId p = S (collisions st appVersionId p).
Proof.
  intros Hfind.
  destruct (clonePage_run pageId appVersionId p st Hfind)
    as [newPage [pairs [PE [LL [EE [answer [Hrun [Hpage _]]]]]]]].
  exists answer, (cloneStore st [newPage] pairs PE LL EE).
  split; [exact Hrun|]. split.
  - unfold cloneStore. cbn [pages]. rewrite find_append, Hfind. reflexivity.
  - unfold collisions, pageNameORHandleExists.
    rewrite clone_pagesOfVersion by (rewrite Hpage; reflexivity).
    rewrite filter_app, length_app. cbn [filter].
    rewrite (clone_collides p newPage _ _ _ _ _ Hpage). cbn [List.length]. lia.
Qed.

(** X18. Cloning a page twice in a row gives two copies with
    different ids and different handles. *)
Theorem clonePage_twice_gives_distinct_handles
  (pageId appVersionId : string) (p : Page.t) (st : Store) :
  find (hasId pageId) (pages st) = Some p ->
  exists first second answer1 st1 answer2 st2,
    clonePage pageId appVersionId st = (Returned answer1, st1)
    /\ clonePage pageId appVersionId st1 = (Returned answer2, st2)
    /\ pages st2 = pages st ++ [first; second]
    /\ Page.id first <> Page.id second
    /\ Page.handle first <> Page.handle second.
Proof.
  intros Hfind.
  destruct (clonePage_run pageId appVersionId p st Hfind)
    as [first [pairs1 [PE1 [LL1 [EE1 [answer1 [Hrun1 [Hfirst _]]]]]]]].
  set (st1 := cloneStore st [first] pairs1 PE1 LL1 EE1) in *.
  assert (Hfind1 : find (hasId pageId) (pages st1) = Some p)
    by (unfold st1, cloneStore; cbn [pages]; rewrite find_append, Hfind; reflexivity).
  assert (Hcount : collisions st1 appVersionId p = S (collisions st appVersionId p)).
  { unfold collisions, pageNameORHandleExists, st1.
    rewrite clone_pagesOfVersion by (rewrite Hfirst; reflexivity).
    rewrite filter_app, length_app. cbn [filter].
    rewrite (clone_collides p first _ _ _ _ _ Hfirst). cbn [List.length]. lia. }
  destruct (clonePage_run pageId appVersionId p st1 Hfind1)
    as [second [pairs2 [PE2 [LL2 [EE2 [answer2 [Hrun2 [Hsecond _]]]]]]]].
  exists first, second, answer1, st1, answer2, (cloneStore st1 [second] pairs2 PE2 LL2 EE2).
  split; [exact Hrun1|]. split; [exact Hrun2|]. split; [|split].
  - unfold st1, cloneStore. cbn [pages]. rewrite <- app_assoc. reflexivity.
  - intros Heq. apply (generate_new (identifiers st1)).
    replace (generate (identifiers st1)) with (Page.id first)
      by (rewrite Heq, Hsecond; reflexivity).
    apply identifiers_page. unfold st1, cloneStore. cbn [pages].
    apply in_or_app. right. left. reflexivity.
  - rewrite Hfirst, Hsecond, Hcount. cbn [Page.handle].
    destruct (collisions st appVersionId p) as [|c]; cbn [Nat.ltb Nat.leb];
      intros Heq; apply append_cancel in Heq.
    + cbn in Heq. discriminate.
    + apply (append_cancel "-copy-") in Heq. apply decimal_injective in Heq. lia.
Qed.

End CloneNames.

(** ** Clone: what is copied *)

Lemma Forall2_maps {A B C : Type} (R : B -> C -> Prop) (f : A -> B) (g : A -> C) (l : list A) :
  (forall x, In x l -> R (f x) (g x)) -> Forall2 R (map f l) (map g l).
Proof.
  induction l as [|x rest IH]; intros HR; constructor.
  - apply HR. left. reflexivity.
  - apply IH. intros y Hy. apply HR. right. exact Hy.
Qed.

Lemma Forall2_map_left {A B C : Type} (R : B -> C -> Prop) (f : A -> B)
  (la : list A) (lc : list C) :
  Forall2 (fun a c => R (f a) c) la lc -> Forall2 R (map f la) lc.
Proof. induction 1; constructor; assumption. Qed.

Lemma reparented_config (componentsIdMap : IdMap.t) (c : Component.t) :
  Component.config (reparented componentsIdMap c) = Component.config c.
Proof. unfold reparented. destruct (IdMap.truthy _); reflexivity. Qed.

Lemma Forall2_both {A B : Type} (P Q : A -> B -> Prop) (la : list A) (lb : list B) :
  Forall2 P la lb -> Forall2 Q la lb -> Forall2 (fun a b => P a b /\ Q a b) la lb.
Proof.
  intros HP. induction HP as [|a b la lb Hab _ IH]; intros HQ; inversion HQ; subst; constructor.
  - split; assumption.
  - apply IH. assumption.
Qed.

(** The rows of the clones, taken by the key that binds them to their
    component: the rows with the id of a clone are the rows made for
    that clone. *)
Lemma concat_pairs_filter {X Y : Type} (key : Y -> string) (F : Component.t -> list X)
  (R : Component.t * Component.t -> X -> Y -> Prop)
  (pairs : list (Component.t * Component.t)) (YY : list (list Y)) :
  (forall pair xs ys, Forall2 (R pair) xs ys ->
                      forall y, In y ys -> key y = Component.id (snd pair)) ->
  Forall2 (fun pair L => Forall2 (R pair) (F (fst pair)) L) pairs YY ->
  NoDup (map (fun pair => Component.id (snd pair)) pairs) ->
  forall before,
    (forall y, In y before ->
               ~ In (key y) (map (fun pair => Component.id (snd pair)) pairs)) ->
    Forall2 (fun pair L =>
               filter (fun y => String.eqb (key y) (Component.id (snd pair)))
                      (before ++ List.concat YY) = L)
            pairs YY.
Proof.
  intros Hkey Hshape.
  induction Hshape as [|pair L pairs' YY' HL Hrest IH]; intros Hnodup before Hbefore;
    constructor.
  - cbn [List.concat]. rewrite !filter_app.
    rewrite (keyed_filter_none key _ before), (keyed_filter_every key _ L),
      (keyed_filter_none key _ (List.concat YY')).
    + cbn [app]. apply app_nil_r.
    + intros y Hy Heq. cbn [map] in Hnodup. inversion Hnodup as [|? ? Hnotin _]; subst.
      apply Hnotin. rewrite <- Heq.
      exact (concat_pairs_keys key F R pairs' YY' Hkey Hrest y Hy).
    + exact (Hkey pair _ _ HL).
    + intros y Hy Heq. apply (Hbefore y Hy). left. symmetry. exact Heq.
  - cbn [List.concat]. rewrite app_assoc. cbn [map] in Hnodup.
    inversion Hnodup as [|? ? Hnotin Hnodup']; subst.
    apply IH; [exact Hnodup'|].
    intros y Hy Hin. apply in_app_or in Hy. destruct Hy as [Hy | Hy].
    + apply (Hbefore y Hy). right. exact Hin.
    + apply Hnotin. rewrite <- (Hkey pair _ _ HL y Hy). exact Hin.
Qed.

Lemma cloneStore_layoutsOf (st : Store) (pageId : string) (newPage : Page.t)
  (pairs : list (Component.t * Component.t)) (PE : list EventHandler.t)
  (LL : list (list Layout.t)) (EE : list (list EventHandler.t)) :
  cloneShape st pageId (Page.id newPage) pairs PE LL EE ->
  Forall2 (fun pair L =>
             layoutsOf (cloneStore st [newPage] pairs PE LL EE) (Component.id (snd pair)) = L)
          pairs LL.
Proof.
  intros [_ [_ [Hpairs [Hnodup [HLL _]]]]]. rewrite Forall_forall in Hpairs.
  unfold layoutsOf, cloneStore. cbn [layouts].
  apply (concat_pairs_filter Layout.componentId (fun c => layoutsOf st (Component.id c))
           (fun pair => layoutCloneOf (Component.id (snd pair)))); [|exact HLL|exact Hnodup|].
  - intros pair xs ys Hclones y Hy. exact (layoutClone_componentId _ _ _ Hclones y Hy).
  - intros l Hl Hin. apply in_map_iff in Hin. destruct Hin as [pair [Heq Hpair]].
    destruct (Hpairs pair Hpair) as [_ [Hfresh _]]. apply Hfresh.
    rewrite Heq. apply identifiers_layout. exact Hl.
Qed.

Lemma cloneStore_eventsOf (st : Store) (pageId : string) (newPage : Page.t)
  (pairs : list (Component.t * Component.t)) (PE : list EventHandler.t)
  (LL : list (list Layout.t)) (EE : list (list EventHandler.t)) :
  cloneShape st pageId (Page.id newPage) pairs PE LL EE ->
  Forall2 (fun pair E =>
             eventsOf (cloneStore st [newPage] pairs PE LL EE) (Component.id (snd pair)) = E)
          pairs EE.
Proof.
  intros [HPE [_ [Hpairs [Hnodup [_ HEE]]]]]. rewrite Forall_forall in Hpairs.
  unfold eventsOf, cloneStore. cbn [eventHandlers]. rewrite app_assoc.
  apply (concat_pairs_filter EventHandler.sourceId (fun c => eventsOf st (Component.id c))
           (fun pair => eventCloneOf (recorded pairs IdMap.empty) (Component.id (snd pair))));
    [|exact HEE|exact Hnodup|].
  - intros pair xs ys Hclones y Hy. exact (eventClone_sourceId _ _ _ _ Hclones y Hy).
  - intros e He Hin. apply in_map_iff in Hin. destruct Hin as [pair [Heq Hpair]].
    destruct (Hpairs pair Hpair) as [_ [Hfresh [_ Hnotpage]]].
    apply in_app_or in He. destruct He as [He | He].
    + apply Hfresh. rewrite Heq. apply identifiers_eventHandler. exact He.
    + apply Hnotpage. rewrite Heq. exact (eventClone_sourceId _ _ _ _ HPE e He).
Qed.

Section CloneCopies.

Context {ids : IdGenerator}.

(** X19. [clonePage] adds one component for each component of the
    page, in their order: a row with the configuration of the original,
    on the new page, under an id that no component had. *)
Theorem clonePage_copies_components
  (pageId appVersionId : string) (p : Page.t) (st : Store) :
  find (hasId pageId) (pages st) = Some p ->
  exists newPage clones answer st',
    clonePage pageId appVersionId st = (Returned answer, st')
    /\ pages st' = pages st ++ [newPage]
    /\ components st' = components st ++ clones
    /\ Forall2 (fun c c' =>
                  Component.config c' = Component.config c
                  /\ Component.pageId c' = Page.id newPage
                  /\ ~ In (Component.id c') (map Component.id (components st)))
               (componentsOf st pageId) clones.
Proof.
  intros Hfind.
  destruct (clonePage_run pageId appVersionId p st Hfind)
    as [newPage [pairs [PE [LL [EE [answer [Hrun [_ Hshape]]]]]]]].
  destruct Hshape as [_ [Hfst [Hpairs _]]]. rewrite Forall_forall in Hpairs.
  exists newPage, (map (fun pair => reparented (recorded pairs IdMap.empty) (snd pair)) pairs),
         answer, (cloneStore st [newPage] pairs PE LL EE).
  split; [exact Hrun|]. split; [reflexivity|]. split; [reflexivity|].
  rewrite <- Hfst. apply Forall2_maps. intros pair Hpair.
  destruct (Hpairs pair Hpair) as [Hclone [Hfresh _]].
  rewrite reparented_config, reparented_pageId, reparented_id.
  split; [rewrite Hclone; reflexivity|]. split; [rewrite Hclone; reflexivity|].
  intros Hin. apply Hfresh. apply in_map_iff in Hin. destruct Hin as [x [Heq Hx]].
  rewrite <- Heq. apply identifiers_component. exact Hx.
Qed.

(** X20. [clonePage] copies the layout rows of every component of the
    page onto the clone of the component.  The page has one clone for
    each of its components, in their order; the layout rows bound to a
    clone after the call are, in some order, one row for each layout row
    of its original, with the geometry of that row; and every layout row
    after the call is a row of before or is bound to one of the clones.
    Nothing is said of the order in which the rows of different
    components are inserted. *)
Theorem clonePage_copies_layouts
  (pageId appVersionId : string) (p : Page.t) (st : Store) :
  find (hasId pageId) (pages st) = Some p ->
  exists clones answer st',
    clonePage pageId appVersionId st = (Returned answer, st')
    /\ components st' = components st ++ clones
    /\ List.length clones = List.length (componentsOf st pageId)
    /\ Forall2 (fun c c' =>
                  exists L,
                    Permutation L (layoutsOf st' (Component.id c'))
                    /\ layoutCopies (Component.id c') (layoutsOf st (Component.id c)) L)
               (componentsOf st pageId) clones
    /\ forall l, In l (layouts st') ->
                 In l (layouts st)
                 \/ In (Layout.componentId l) (map Component.id clones).
Proof.
  intros Hfind.
  destruct (clonePage_run pageId appVersionId p st Hfind)
    as [newPage [pairs [PE [LL [EE [answer [Hrun [_ Hshape]]]]]]]].
  assert (Hrows := cloneStore_layoutsOf st pageId newPage pairs PE LL EE Hshape).
  destruct Hshape as [_ [Hfst [_ [_ [HLL _]]]]].
  exists (map (fun pair => reparented (recorded pairs IdMap.empty) (snd pair)) pairs),
         answer, (cloneStore st [newPage] pairs PE LL EE).
  split; [exact Hrun|]. split; [reflexivity|].
  split; [rewrite <- Hfst, !length_map; reflexivity|].
  split.
  - rewrite <- Hfst. apply Forall2_maps. intros pair Hpair.
    destruct (Forall2_In_left _ _ _ pair (Forall2_both _ _ _ _ HLL Hrows) Hpair)
      as [L [_ [HL Hrow]]].
    exists L. rewrite reparented_id. split.
    + rewrite Hrow. apply Permutation_refl.
    + unfold layoutCopies. eapply Forall2_impl; [|exact HL].
      intros l l' Hclone. rewrite Hclone. split; reflexivity.
  - intros l Hl. unfold cloneStore in Hl. cbn [layouts] in Hl.
    apply in_app_or in Hl. destruct Hl as [Hl | Hl]; [left; exact Hl | right].
    rewrite clone_ids.
    apply (concat_pairs_keys Layout.componentId (fun c => layoutsOf st (Component.id c))
             (fun pair => layoutCloneOf (Component.id (snd pair))) pairs LL);
      [|exact HLL | exact Hl].
    intros pair xs ys Hclones y Hy. exact (layoutClone_componentId _ _ _ Hclones y Hy).
Qed.

(** X21. A parent that is not a component of the page is not
    resolved.  The page has one clone for each of its components, in
    their order, with the configuration of its original; when the parent
    of the original is not the id of a component of the page, the clone
    keeps that parent as it is.  A component without parent is looked up
    under the key ["null"].  The keys of the clone are assumed not to be
    names every object inherits. *)
Theorem clonePage_keeps_unresolved_parent
  (pageId appVersionId : string) (p : Page.t) (st : Store) :
  find (hasId pageId) (pages st) = Some p ->
  plainKeys st pageId ->
  exists clones answer st',
    clonePage pageId appVersionId st = (Returned answer, st')
    /\ components st' = components st ++ clones
    /\ List.length clones = List.length (componentsOf st pageId)
    /\ Forall2 (fun c c' =>
                  Component.config c' = Component.config c
                  /\ (~ In (IdMap.key (Component.parent c) "null")
                           (map Component.id (componentsOf st pageId)) ->
                      Component.parent c' = Component.parent c))
               (componentsOf st pageId) clones.
Proof.
  intros Hfind _.
  destruct (clonePage_run pageId appVersionId p st Hfind)
    as [newPage [pairs [PE [LL [EE [answer [Hrun [_ Hshape]]]]]]]].
  destruct Hshape as [_ [Hfst [Hpairs _]]]. rewrite Forall_forall in Hpairs.
  exists (map (fun pair => reparented (recorded pairs IdMap.empty) (snd pair)) pairs),
         answer, (cloneStore st [newPage] pairs PE LL EE).
  split; [exact Hrun|]. split; [reflexivity|].
  split; [rewrite <- Hfst, !length_map; reflexivity|].
  rewrite <- Hfst at 1. apply Forall2_maps. intros pair Hpair.
  destruct (Hpairs pair Hpair) as [Hclone _].
  assert (Hparent : Component.parent (snd pair) = Component.parent (fst pair))
    by (rewrite Hclone; reflexivity).
  split; [rewrite reparented_config, Hclone; reflexivity|].
  intros Hnotin.
  unfold reparented. rewrite Hparent, recorded_frame.
  - cbn. exact Hparent.
  - rewrite <- (map_map fst Component.id), Hfst. exact Hnotin.
Qed.

(** X22. An event handler of a component with the action
    ["control-component"] that controls no component of the page is
    cloned with no component to control.  The page has one clone for
    each of its components, in their order; the event handlers of a
    clone after the call are, in some order, one handler for each
    handler of its original, of the same version; and the copy of a
    handler whose action is ["control-component"] and whose
    [componentId] is not the id of a component of the page has the
    payload of the original with [componentId] [undefined].  A handler
    without [componentId] is looked up under the key ["undefined"].  The
    keys of the clone are assumed not to be names every object
    inherits. *)
Theorem clonePage_component_event_outside_page
  (pageId appVersionId : string) (p : Page.t) (st : Store) :
  find (hasId pageId) (pages st) = Some p ->
  plainKeys st pageId ->
  exists clones answer st',
    clonePage pageId appVersionId st = (Returned answer, st')
    /\ components st' = components st ++ clones
    /\ List.length clones = List.length (componentsOf st pageId)
    /\ Forall2 (fun c c' =>
                  exists E,
                    Permutation E (eventsOf st' (Component.id c'))
                    /\ Forall2 (fun e e' =>
                                  EventHandler.appVersionId e' = EventHandler.appVersionId e
                                  /\ forall definition,
                                       EventHandler.event e = Some definition ->
                                       EventDefinition.actionId definition = "control-component" ->
                                       ~ In (IdMap.key (EventDefinition.componentId definition)
                                                       "undefined")
                                            (map Component.id (componentsOf st pageId)) ->
                                       EventHandler.event e'
                                       = Some (EventDefinition.withComponentId None definition))
                               (eventsOf st (Component.id c)) E)
               (componentsOf st pageId) clones.
Proof.
  intros Hfind _.
  destruct (clonePage_run pageId appVersionId p st Hfind)
    as [newPage [pairs [PE [LL [EE [answer [Hrun [_ Hshape]]]]]]]].
  assert (Hrows := cloneStore_eventsOf st pageId newPage pairs PE LL EE Hshape).
  destruct Hshape as [_ [Hfst [_ [_ [_ HEE]]]]].
  exists (map (fun pair => reparented (recorded pairs IdMap.empty) (snd pair)) pairs),
         answer, (cloneStore st [newPage] pairs PE LL EE).
  split; [exact Hrun|]. split; [reflexivity|].
  split; [rewrite <- Hfst, !length_map; reflexivity|].
  rewrite <- Hfst at 1. apply Forall2_maps. intros pair Hpair.
  destruct (Forall2_In_left _ _ _ pair (Forall2_both _ _ _ _ HEE Hrows) Hpair)
    as [E [_ [HE Hrow]]].
  exists E. rewrite reparented_id. split; [rewrite Hrow; apply Permutation_refl|].
  eapply Forall2_impl; [|exact HE].
  intros e e' Hclone. split.
  { rewrite Hclone. cbn [EventHandler.appVersionId EventHandler.withId EventHandler.withSourceId].
    unfold remapEvent. destruct (EventHandler.event e) as [d|]; [|reflexivity].
    destruct (String.eqb (EventDefinition.actionId d) "control-component"); reflexivity. }
  intros definition Hevent Haction Hnotin.
  rewrite Hclone. cbn [EventHandler.event EventHandler.withId EventHandler.withSourceId].
  unfold remapEvent. rewrite Hevent, Haction. cbn [String.eqb Ascii.eqb Bool.eqb].
  rewrite recorded_frame; [reflexivity|].
  rewrite <- (map_map fst Component.id), Hfst. exact Hnotin.
Qed.

End CloneCopies.

Section CloneInvariants.

Context {ids : IdGenerator}.

(** X23. The event handlers of the new page are the clones of the
    event handlers of the page, one for one and in their order.  A clone
    keeps the version of its original, and its payload when the original
    has none or has another action than ["control-component"]. *)
Theorem clonePage_new_page_event_handlers
  (pageId appVersionId : string) (p : Page.t) (st : Store) :
  find (hasId pageId) (pages st) = Some p ->
  exists newPage answer st',
    clonePage pageId appVersionId st = (Returned answer, st')
    /\ pages st' = pages st ++ [newPage]
    /\ Forall2 (fun e e' =>
                  EventHandler.sourceId e' = Page.id newPage
                  /\ EventHandler.appVersionId e' = EventHandler.appVersionId e
                  /\ (EventHandler.event e = None -> EventHandler.event e' = None)
                  /\ (forall d, EventHandler.event e = Some d ->
                                EventDefinition.actionId d <> "control-component" ->
                                EventHandler.event e' = Some d))
               (eventsOf st pageId) (eventsOf st' (Page.id newPage)).
Proof.
  intros Hfind.
  destruct (clonePage_run pageId appVersionId p st Hfind)
    as [newPage [pairs [PE [LL [EE [answer [Hrun [Hpage Hshape]]]]]]]].
  assert (Hnew : ~ In (Page.id newPage) (identifiers st))
    by (rewrite Hpage; apply generate_new).
  destruct Hshape as [HPE [_ [Hpairs [_ [_ HEE]]]]]. rewrite Forall_forall in Hpairs.
  exists newPage, answer, (cloneStore st [newPage] pairs PE LL EE).
  split; [exact Hrun|]. split; [reflexivity|].
  assert (Hevents : eventsOf (cloneStore st [newPage] pairs PE LL EE) (Page.id newPage) = PE).
  { unfold eventsOf, cloneStore. cbn [eventHandlers]. rewrite !filter_app.
    rewrite (keyed_filter_none EventHandler.sourceId _ (eventHandlers st)).
    - rewrite (keyed_filter_every EventHandler.sourceId _ PE)
        by (apply (eventClone_sourceId _ _ _ _ HPE)).
      rewrite (keyed_filter_none EventHandler.sourceId _ (List.concat EE));
        [apply app_nil_r|].
      intros e He Heq.
      assert (Hkey := concat_pairs_keys EventHandler.sourceId
                        (fun c => eventsOf st (Component.id c))
                        (fun pair => eventCloneOf (recorded pairs IdMap.empty)
                                                  (Component.id (snd pair)))
                        pairs EE
                        (fun pair xs ys H y Hy => eventClone_sourceId _ _ _ _ H y Hy)
                        HEE e He).
      rewrite Heq in Hkey. apply in_map_iff in Hkey. destruct Hkey as [pair [Hid Hpair]].
      destruct (Hpairs pair Hpair) as [_ [_ [_ Hnotpage]]]. exact (Hnotpage Hid).
    - intros e He Heq. apply Hnew. rewrite <- Heq. apply identifiers_eventHandler. exact He. }
  rewrite Hevents. eapply Forall2_impl; [|exact HPE].
  intros e e' Hclone. rewrite Hclone.
  cbn [EventHandler.sourceId EventHandler.appVersionId EventHandler.event
       EventHandler.withId EventHandler.withSourceId].
  unfold remapEvent. repeat split.
  - destruct (EventHandler.event e) as [d|]; [|reflexivity].
    destruct (String.eqb _ _); reflexivity.
  - intros Hnone. rewrite Hnone. exact Hnone.
  - intros d Hevent Haction. rewrite Hevent.
    apply String.eqb_neq in Haction. rewrite Haction. exact Hevent.
Qed.

(** X24. [clonePage] keeps the ids of the pages distinct, and the ids
    of the components. *)
Theorem clonePage_keeps_ids_distinct
  (pageId appVersionId : string) (p : Page.t) (st : Store) :
  find (hasId pageId) (pages st) = Some p ->
  NoDup (map Page.id (pages st)) ->
  NoDup (map Component.id (components st)) ->
  exists answer st',
    clonePage pageId appVersionId st = (Returned answer, st')
    /\ NoDup (map Page.id (pages st'))
    /\ NoDup (map Component.id (components st')).
Proof.
  intros Hfind Hpages Hcomponents.
  destruct (clonePage_run pageId appVersionId p st Hfind)
    as [newPage [pairs [PE [LL [EE [answer [Hrun [Hpage Hshape]]]]]]]].
  destruct Hshape as [_ [_ [Hpairs [Hnodup _]]]]. rewrite Forall_forall in Hpairs.
  exists answer, (cloneStore st [newPage] pairs PE LL EE).
  split; [exact Hrun|]. unfold cloneStore. cbn [pages components]. split.
  - rewrite map_app. apply NoDup_append; [exact Hpages | repeat constructor; intros [] |].
    intros x Hin [Hx | []]. cbn in Hx. subst x.
    apply (generate_new (identifiers st)).
    replace (generate (identifiers st)) with (Page.id newPage) by (rewrite Hpage; reflexivity).
    apply in_map_iff in Hin. destruct Hin as [q [Hid Hq]].
    rewrite <- Hid. apply identifiers_page. exact Hq.
  - rewrite map_app, clone_ids. apply NoDup_append; [exact Hcomponents | exact Hnodup |].
    intros x Hin Hclone. apply in_map_iff in Hclone. destruct Hclone as [pair [Hid Hpair]].
    destruct (Hpairs pair Hpair) as [_ [Hfresh _]]. apply Hfresh.
    apply in_map_iff in Hin. destruct Hin as [c [Hc Hcin]].
    rewrite Hid, <- Hc. apply identifiers_component. exact Hcin.
Qed.

End CloneInvariants.

(** ** The listing *)

Lemma findPagesForVersion_listed (appVersionId : string) (st : Store) :
  findPagesForVersion appVersionId st
  = (Returned (map (listed st) (pagesOfVersion st appVersionId)), st).
Proof.
  unfold findPagesForVersion.
  erewrite bind_returned by reflexivity. cbv beta.
  fold (pagesOfVersion st appVersionId).
  induction (pagesOfVersion st appVersionId) as [|page rest IH]; [reflexivity|].
  cbn [mapM map].
  erewrite bind_returned by reflexivity.
  erewrite bind_returned by exact IH. reflexivity.
Qed.

(** X25. [findPagesForVersion] writes nothing and answers one entry
    for each page of the version, in the store's order, with the id,
    name, handle and index of the page and with the components
    [getAllComponents] answers for the page. *)
Theorem findPagesForVersion_lists_the_version (appVersionId : string) (st : Store) :
  exists listing,
    findPagesForVersion appVersionId st = (Returned listing, st)
    /\ map l_id listing = map Page.id (pagesOfVersion st appVersionId)
    /\ map l_name listing = map Page.name (pagesOfVersion st appVersionId)
    /\ map l_handle listing = map Page.handle (pagesOfVersion st appVersionId)
    /\ map l_index listing = map Page.index (pagesOfVersion st appVersionId)
    /\ Forall (fun entry =>
                 getAllComponents (l_id entry) st = (Returned (l_components entry), st))
              listing.
Proof.
  exists (map (listed st) (pagesOfVersion st appVersionId)).
  split; [apply findPagesForVersion_listed|].
  rewrite !map_map. repeat split.
  apply Forall_forall. intros entry Hentry.
  apply in_map_iff in Hentry. destruct Hentry as [q [<- _]]. reflexivity.
Qed.

Section CloneAnswer.

Context {ids : IdGenerator}.

Lemma clonePage_answer (pageId appVersionId : string) (answer : Cloned) (st st' : Store) :
  clonePage pageId appVersionId st = (Returned answer, st') ->
  answer
  = mkCloned (map (listed st') (pagesOfVersion st' appVersionId))
             (filter (fun e => String.eqb (EventHandler.appVersionId e) appVersionId)
                     (eventHandlers st')).
Proof.
  unfold clonePage, dbTransactionForAppVersionAssociationsUpdate.
  erewrite bind_returned by reflexivity. cbv beta.
  destruct (find (hasId pageId) (pages st)) as [p|]; [|discriminate].
  erewrite bind_returned by reflexivity. cbv beta zeta.
  erewrite bind_returned by reflexivity. cbv beta.
  unfold bind at 1.
  destruct (clonePageEventsAndComponents _ _ _) as [[[]|e] st2]; [|discriminate].
  erewrite bind_returned by apply findPagesForVersion_listed.
  erewrite bind_returned by reflexivity.
  unfold ret. intros H. injection H as <- <-. reflexivity.
Qed.

(** X26. [clonePage] answers what [findPagesForVersion] and
    [findEventsForVersion] answer for the version once the clone is done:
    the listing of the pages the version had, followed by the copy, and
    the event handlers of the version. *)
Theorem clonePage_answers_the_version_after
  (pageId appVersionId : string) (p : Page.t) (st : Store) :
  find (hasId pageId) (pages st) = Some p ->
  exists newPage answer st',
    clonePage pageId appVersionId st = (Returned answer, st')
    /\ pages st' = pages st ++ [newPage]
    /\ findPagesForVersion appVersionId st' = (Returned (c_pages answer), st')
    /\ findEventsForVersion appVersionId st' = (Returned (c_events answer), st')
    /\ map l_id (c_pages answer)
       = map Page.id (pagesOfVersion st appVersionId) ++ [Page.id newPage].
Proof.
  intros Hfind.
  destruct (clonePage_run pageId appVersionId p st Hfind)
    as [newPage [pairs [PE [LL [EE [answer [Hrun [Hpage _]]]]]]]].
  exists newPage, answer, (cloneStore st [newPage] pairs PE LL EE).
  split; [exact Hrun|]. split; [reflexivity|].
  rewrite (clonePage_answer _ _ _ _ _ Hrun). cbn [c_pages c_events].
  split; [apply findPagesForVersion_listed|]. split; [reflexivity|].
  rewrite clone_pagesOfVersion by (rewrite Hpage; reflexivity).
  rewrite map_map, map_app. reflexivity.
Qed.

End CloneAnswer.

(** ** The further properties on the stores *)

Lemma twoPages_ids : NoDup (map Page.id (pages twoPages)).
Proof.
  cbn. repeat constructor; cbn; intuition discriminate.
Defined.

Lemma twoPages_home_is_not_p2 :
  forall v, find (fun v => String.eqb (AppVersion.id v) "V") (appVersions twoPages) = Some v ->
            AppVersion.homePageId v <> Some "p2".
Proof.
  intros v Hv. cbn in Hv. injection Hv as <-. discriminate.
Defined.

Lemma swap_defined : forall k, In k (Js.keys swap) -> indexTyped swap k.
Proof.
  intros k [<- | [<- | []]]; exact I.
Defined.



Lemma twoPages_no_copy :
  forall q, In q (pagesOfVersion twoPages "V") ->
            includes (Page.name q) ("First" ++ " (copy)") = false
            /\ includes (Page.handle q) ("first" ++ "-copy") = false.
Proof.
  intros q [<- | [<- | []]]; split; reflexivity.
Defined.

Lemma homeStore_page_ids : NoDup (map Page.id (pages homeStore)).
Proof.
  cbn. repeat constructor; cbn; intuition discriminate.
Defined.

Lemma homeStore_component_ids : NoDup (map Component.id (components homeStore)).
Proof.
  cbn. repeat constructor; cbn; intuition discriminate.
Defined.

Lemma createPage_keeps_ids_distinct_witness :
  NoDup (map Page.id (pages twoPages))
  /\ exists created st',
       createPage aboutPage "V" twoPages = (Returned created, st')
       /\ NoDup (map Page.id (pages st')).
Proof.
  split; [exact twoPages_ids|].
  exact (createPage_keeps_ids_distinct aboutPage "V" twoPages twoPages_ids).
Defined.

Lemma deletePage_missing_page_not_found_witness :
  (forall p, In p (pages twoPages) -> Page.id p <> "ghost")
  /\ deletePage "ghost" "V" twoPages = (Thrown (Error "Page not found"), twoPages).
Proof.
  split; [exact twoPages_no_ghost|].
  exact (proj1 (deletePage_missing_page_not_found "ghost" "V" twoPages twoPages_no_ghost)).
Defined.

Lemma deletePage_removes_the_row_witness :
  find (hasId "p2") (pages twoPages) = Some (Page.mk "p2" "Second" "second" 2 "V")
  /\ exists answers st',
       deletePage "p2" "V" twoPages = (Returned answers, st')
       /\ map Page.id (pages st')
          = filter (fun i => negb (String.eqb i "p2")) (map Page.id (pages twoPages))
       /\ deletePage "p2" "V" st' = (Thrown (Error "Page not found"), st').
Proof.
  split; [reflexivity|].
  exact (deletePage_removes_the_row "p2" "V" (Page.mk "p2" "Second" "second" 2 "V") twoPages
           eq_refl twoPages_home_is_not_p2).
Defined.

Lemma deletePage_writes_indices_only_witness :
  NoDup (map Page.id (pages twoPages))
  /\ exists answers st',
       deletePage "p2" "V" twoPages = (Returned answers, st')
       /\ Forall2 (fun before after =>
                     (after = before \/ after = decrement before)
                     /\ (Page.appVersionId before
                         <> Page.appVersionId (Page.mk "p2" "Second" "second" 2 "V") ->
                         after = before))
                  (filter (fun r => negb (hasId "p2" r)) (pages twoPages)) (pages st').
Proof.
  split; [exact twoPages_ids|].
  exact (deletePage_writes_indices_only "p2" "V" (Page.mk "p2" "Second" "second" 2 "V")
           twoPages twoPages_ids eq_refl twoPages_home_is_not_p2).
Defined.

Lemma swapAndStranger_numbered :
  forall k, In k (Js.keys swapAndStranger) -> indexNumbered swapAndStranger k.
Proof.
  intros k [<- | [<- | [<- | []]]]; exact I.
Defined.

Lemma updatePagesOrder_writes_requested_indices_witness :
  updatePagesOrder swapAndStranger "V" twoPages
  = (Returned tt,
     withPages [Page.mk "p1" "First" "first" 2 "V"; Page.mk "p2" "Second" "second" 1 "V"]
               twoPages).
Proof.
  exact (proj1 (updatePagesOrder_writes_requested_indices swapAndStranger "V" twoPages
                  swapAndStranger_numbered)).
Defined.

Lemma updatePagesOrder_idempotent_witness :
  updatePagesOrder swap "V" (snd (updatePagesOrder swap "V" twoPages))
  = (Returned tt, snd (updatePagesOrder swap "V" twoPages)).
Proof.
  exact (updatePagesOrder_idempotent swap "V" twoPages swap_defined).
Defined.

Lemma updatePagesOrder_null_value_throws_witness :
  In "p2" (Js.keys swapWithNull)
  /\ Js.get swapWithNull "p2" = Js.null
  /\ updatePagesOrder swapWithNull "V" twoPages = (Thrown TypeError, twoPages).
Proof.
  split; [right; left; reflexivity|]. split; [reflexivity|].
  exact (updatePagesOrder_null_value_throws swapWithNull "V" "p2" twoPages
           (or_intror (or_introl eq_refl)) (or_introl eq_refl)).
Defined.


Lemma updatePagesOrder_then_findOne_witness :
  exists st',
    updatePagesOrder swap "V" twoPages = (Returned tt, st')
    /\ findOnePage "p1" st' = (Returned (Some (Page.mk "p1" "First" "first" 2 "V")), st').
Proof.
  exact (updatePagesOrder_then_findOne swap [("index", Js.number 2)] "V"
           (Page.mk "p1" "First" "first" 1 "V") 2 twoPages
           swap_defined eq_refl eq_refl eq_refl).
Defined.

Lemma updatePage_renames_witness :
  exists st',
    updatePage renameOfFirst "V" twoPages = (Returned (Some (mkUpdateResult 1)), st')
    /\ findOnePage "p1" st' = (Returned (Some (Page.mk "p1" "Start" "first" 1 "V")), st')
    /\ filter (fun r => negb (hasId "p1" r)) (pages st')
       = filter (fun r => negb (hasId "p1" r)) (pages twoPages).
Proof.
  exact (updatePage_renames renameOfFirst "V" "Start" (Page.mk "p1" "First" "first" 1 "V")
           twoPages eq_refl eq_refl).
Defined.

Lemma clonePage_missing_page_not_found_witness :
  (forall p, In p (pages twoPages) -> Page.id p <> "ghost")
  /\ clonePage "ghost" "V" twoPages = (Thrown (Error "Page not found"), twoPages).
Proof.
  split; [exact twoPages_no_ghost|].
  exact (proj1 (clonePage_missing_page_not_found "ghost" "V" twoPages twoPages_no_ghost)).
Defined.

Lemma clonePage_without_collision_witness :
  exists newPage answer st',
    clonePage "p1" "V" twoPages = (Returned answer, st')
    /\ pages st' = pages twoPages ++ [newPage]
    /\ Page.name newPage = "First (copy)"
    /\ Page.handle newPage = "first-copy".
Proof.
  exact (clonePage_without_collision "p1" "V" (Page.mk "p1" "First" "first" 1 "V") twoPages
           eq_refl twoPages_no_copy).
Defined.

Lemma clonePage_adds_a_collision_witness :
  collisions homeStore "V" home = 1
  /\ exists answer st',
       clonePage "p1" "V" homeStore = (Returned answer, st')
       /\ find (hasId "p1") (pages st') = Some home
       /\ collisions st' "V" home = 2.
Proof.
  split; [reflexivity|].
  exact (clonePage_adds_a_collision "p1" "V" home homeStore eq_refl).
Defined.

Lemma clonePage_twice_gives_distinct_handles_witness :
  find (hasId "p1") (pages homeStore) = Some home
  /\ exists first second answer1 st1 answer2 st2,
       clonePage "p1" "V" homeStore = (Returned answer1, st1)
       /\ clonePage "p1" "V" st1 = (Returned answer2, st2)
       /\ pages st2 = pages homeStore ++ [first; second]
       /\ Page.id first <> Page.id second
       /\ Page.handle first <> Page.handle second.
Proof.
  split; [reflexivity|].
  exact (clonePage_twice_gives_distinct_handles "p1" "V" home homeStore eq_refl).
Defined.

Lemma clonePage_copies_components_witness :
  find (hasId "p1") (pages homeStore) = Some home
  /\ exists newPage clones answer st',
       clonePage "p1" "V" homeStore = (Returned answer, st')
       /\ pages st' = pages homeStore ++ [newPage]
       /\ components st' = components homeStore ++ clones
       /\ Forall2 (fun c c' =>
                     Component.config c' = Component.config c
                     /\ Component.pageId c' = Page.id newPage
                     /\ ~ In (Component.id c') (map Component.id (components homeStore)))
                  (componentsOf homeStore "p1") clones.
Proof.
  split; [reflexivity|].
  exact (clonePage_copies_components "p1" "V" home homeStore eq_refl).
Defined.

Lemma strayStore_plainKeys : plainKeys strayStore "p1".
Proof. reflexivity. Defined.

Lemma clonePage_copies_layouts_witness :
  map Layout.geometry
      (layoutsOf (snd (clonePage "p1" "V" strayStore))
                 (Component.id (nth 3 (components (snd (clonePage "p1" "V" strayStore))) panel)))
  = ["desktop"; "mobile"]
  /\ exists clones answer st',
       clonePage "p1" "V" strayStore = (Returned answer, st')
       /\ components st' = components strayStore ++ clones
       /\ List.length clones = List.length (componentsOf strayStore "p1")
       /\ Forall2 (fun c c' =>
                     exists L,
                       Permutation L (layoutsOf st' (Component.id c'))
                       /\ layoutCopies (Component.id c')
                                       (layoutsOf strayStore (Component.id c)) L)
                  (componentsOf strayStore "p1") clones
       /\ forall l, In l (layouts st') ->
                    In l (layouts strayStore)
                    \/ In (Layout.componentId l) (map Component.id clones).
Proof.
  split; [reflexivity|].
  exact (clonePage_copies_layouts "p1" "V" home strayStore eq_refl).
Defined.

Lemma clonePage_keeps_unresolved_parent_witness :
  plainKeys strayStore "p1"
  /\ ~ In (IdMap.key (Component.parent panel) "null")
          (map Component.id (componentsOf strayStore "p1"))
  /\ exists panel' label' answer st',
       clonePage "p1" "V" strayStore = (Returned answer, st')
       /\ components st' = components strayStore ++ [panel'; label']
       /\ Component.config panel' = "panel"
       /\ Component.parent panel' = Some "c9".
Proof.
  assert (Hstray : ~ In (IdMap.key (Component.parent panel) "null")
                        (map Component.id (componentsOf strayStore "p1")))
    by (intros [H | [H | []]]; discriminate H).
  split; [exact strayStore_plainKeys|]. split; [exact Hstray|].
  destruct (clonePage_keeps_unresolved_parent "p1" "V" home strayStore
              eq_refl strayStore_plainKeys)
    as [clones [answer [st' [Hrun [Hcomponents [_ Hclones]]]]]].
  change (componentsOf strayStore "p1") with [panel; label] in Hclones.
  inversion Hclones as [|c1 panel' l1 rest1 [Hconfig Hparent] Hrest]; subst.
  inversion Hrest as [|c2 label' l2 rest2 _ Hnil]; subst.
  inversion Hnil; subst.
  exists panel', label', answer, st'.
  split; [exact Hrun|]. split; [exact Hcomponents|].
  split; [exact Hconfig | exact (Hparent Hstray)].
Defined.

Lemma clonePage_component_event_outside_page_witness :
  plainKeys strayStore "p1"
  /\ exists e' answer st',
       clonePage "p1" "V" strayStore = (Returned answer, st')
       /\ In e' (eventHandlers st')
       /\ ~ In e' (eventHandlers strayStore)
       /\ EventHandler.event e'
          = Some (EventDefinition.mk "onSelect" "control-component" None).
Proof.
  split; [exact strayStore_plainKeys|].
  destruct (clonePage_component_event_outside_page "p1" "V" home strayStore
              eq_refl strayStore_plainKeys)
    as [clones [answer [st' [Hrun [_ [_ Hclones]]]]]].
  change (componentsOf strayStore "p1") with [panel; label] in Hclones.
  inversion Hclones as [|c1 panel' l1 rest1 [E [Hperm Hevents]] _]; subst.
  change (eventsOf strayStore (Component.id panel)) with [onSelect] in Hevents.
  inversion Hevents as [|e1 e' l2 rest2 [_ Hevent] Hnil]; subst.
  inversion Hnil; subst.
  assert (Houtside : EventHandler.event e'
                     = Some (EventDefinition.mk "onSelect" "control-component" None)).
  { apply (Hevent (EventDefinition.mk "onSelect" "control-component" (Some "c9")));
      [reflexivity | reflexivity |].
    intros [H | [H | []]]; discriminate H. }
  exists e', answer, st'.
  split; [exact Hrun|]. split; [|split; [|exact Houtside]].
  - assert (Hin : In e' (eventsOf st' (Component.id panel')))
      by (apply (Permutation_in _ Hperm); left; reflexivity).
    apply filter_In in Hin. exact (proj1 Hin).
  - intros [H | [H | []]]; rewrite <- H in Houtside; discriminate Houtside.
Defined.

Lemma clonePage_new_page_event_handlers_witness :
  find (hasId "p1") (pages homeStore) = Some home
  /\ exists newPage answer st',
       clonePage "p1" "V" homeStore = (Returned answer, st')
       /\ pages st' = pages homeStore ++ [newPage]
       /\ Forall2 (fun e e' =>
                     EventHandler.sourceId e' = Page.id newPage
                     /\ EventHandler.appVersionId e' = EventHandler.appVersionId e
                     /\ (EventHandler.event e = None -> EventHandler.event e' = None)
                     /\ (forall d, EventHandler.event e = Some d ->
                                   EventDefinition.actionId d <> "control-component" ->
                                   EventHandler.event e' = Some d))
                  (eventsOf homeStore "p1") (eventsOf st' (Page.id newPage)).
Proof.
  split; [reflexivity|].
  exact (clonePage_new_page_event_handlers "p1" "V" home homeStore eq_refl).
Defined.

Lemma clonePage_keeps_ids_distinct_witness :
  NoDup (map Page.id (pages homeStore))
  /\ NoDup (map Component.id (components homeStore))
  /\ exists answer st',
       clonePage "p1" "V" homeStore = (Returned answer, st')
       /\ NoDup (map Page.id (pages st'))
       /\ NoDup (map Component.id (components st')).
Proof.
  split; [exact homeStore_page_ids|]. split; [exact homeStore_component_ids|].
  exact (clonePage_keeps_ids_distinct "p1" "V" home homeStore eq_refl
           homeStore_page_ids homeStore_component_ids).
Defined.

Lemma clonePage_answers_the_version_after_witness :
  map l_name (c_pages (match fst (clonePage "p1" "V" homeStore) with
                       | Returned answer => answer
                       | Thrown _ => mkCloned [] []
                       end))
  = ["Home"; "Home (copy)"; "Home (copy 1)"]
  /\ exists newPage answer st',
       clonePage "p1" "V" homeStore = (Returned answer, st')
       /\ pages st' = pages homeStore ++ [newPage]
       /\ findPagesForVersion "V" st' = (Returned (c_pages answer), st')
       /\ findEventsForVersion "V" st' = (Returned (c_events answer), st')
       /\ map l_id (c_pages answer)
          = map Page.id (pagesOfVersion homeStore "V") ++ [Page.id newPage].
Proof.
  split; [reflexivity|].
  exact (clonePage_answers_the_version_after "p1" "V" home homeStore eq_refl).
Defined.
